(** * PrivateVoting and VotingFactory: a shallow embedding

    The two Solidity contracts of [contracts/PrivateVoting.sol] are
    translated function by function into an error-and-state monad.  A
    contract call is a function from the contract state to either a
    revert or a result with the next state; the EVM executes a call as a
    transaction, so a revert leaves the state of before the call.

    The libraries the contracts import are modelled by their documented
    behaviour: OpenZeppelin's [Ownable] and [ReentrancyGuard] (v5), and
    fhevm's [TFHE] and [GatewayCaller], the former through the plaintext a
    ciphertext carries (homomorphic operations act on the plaintexts). *)

From Stdlib Require Import ZArith Lia.
From stdpp Require Import base gmap strings list.

Local Open Scope Z_scope.

(** ** Solidity values and the execution monad *)

Abbreviation address := Z (only parsing).
Abbreviation bytes := (list Z) (only parsing).

Definition MAX_UINT256 : Z := 2 ^ 256 - 1.

(** The ways a call reverts. *)
Inductive Error : Type :=
| Require (msg : string)                       (* require(c, msg), revert(msg) *)
| RequireNoData                                (* require(c) *)
| OwnableUnauthorizedAccount (account : address)
| OwnableInvalidOwner (owner : address)
| ReentrancyGuardReentrantCall
| Panic (code : Z)                             (* 0x11: arithmetic overflow *)
| InvalidInputProof.                           (* TFHE input verification *)

Inductive Result (A : Type) : Type :=
| Ok (a : A)
| Revert (e : Error).
Arguments Ok {A} a.
Arguments Revert {A} e.

(** Events, and the external calls a contract makes to the gateway, in the
    order they happen. *)
Module Event.
Inductive t : Type :=
| OwnershipTransferred (previousOwner newOwner : address)
| VotingCreated (title : string) (startTime endTime : Z)
| VoteCast (voter : address) (timestamp : Z)
| VotingEnded (timestamp : Z)
| VoterAuthorized (voter : address)
| VoterRevoked (voter : address)
| ResultsRequested (timestamp : Z)
| ResultsRevealed (results : list Z)
| GatewayRequestDecryption (cts : list Z) (callbackSelector : string)
    (msgValue maxTimestamp : Z) (passSignaturesToCaller : bool)
| VotingContractCreated (contractAddress creator : address) (title : string)
    (timestamp : Z)
| VotingContractDeactivated (contractAddress : address) (timestamp : Z).
End Event.

(** What a call sees of the chain. [this] is the address of the executing
    contract, [gatewayContractAddress] what [Gateway.gatewayContractAddress()]
    returns, [createdAddress] the address the chain gives to a contract
    created during the call. *)
Record Env : Type := {
  msg_sender : address;
  block_timestamp : Z;
  this : address;
  gatewayContractAddress : address;
  createdAddress : address
}.

Definition M (St A : Type) : Type := St -> Result (A * St).

Section Monad.
Context {St : Type}.

Definition ret {A} (a : A) : M St A := fun s => Ok (a, s).

Definition bind {A B} (c : M St A) (k : A -> M St B) : M St B :=
  fun s => match c s with
           | Ok (a, s') => k a s'
           | Revert e => Revert e
           end.

Definition revert {A} (e : Error) : M St A := fun _ => Revert e.

Definition require (c : bool) (msg : string) : M St unit :=
  if c then ret tt else revert (Require msg).

Definition gets {A} (f : St -> A) : M St A := fun s => Ok (f s, s).

Definition modify (f : St -> St) : M St unit := fun s => Ok (tt, f s).

Definition lift {A} (r : Result A) : M St A :=
  fun s => match r with Ok a => Ok (a, s) | Revert e => Revert e end.

(** [for (uint256 i = start; ...; i++) body] with [n] iterations. *)
Fixpoint for_loop (n : nat) (i : Z) (body : Z -> M St unit) : M St unit :=
  match n with
  | O => ret tt
  | S n' => bind (body i) (fun _ => for_loop n' (i + 1) body)
  end.
End Monad.

Notation "'let*' x ':=' c 'in' k" := (bind c (fun x => k))
  (at level 10, x name, c at level 100, k at level 200, only parsing).
Notation "c1 ;; c2" := (bind c1 (fun _ => c2))
  (at level 100, c2 at level 200, right associativity, only parsing).

(** A call as the EVM runs it: the state of a reverted call is the state of
    before the call. *)
Definition transact {St A} (c : M St A) (s : St) : Result A * St :=
  match c s with
  | Ok (a, s') => (Ok a, s')
  | Revert e => (Revert e, s)
  end.

(** Checked arithmetic of Solidity 0.8 on uint256. *)
Definition checked_add (a b : Z) : Result Z :=
  if a + b <=? MAX_UINT256 then Ok (a + b) else Revert (Panic 17).

Definition checked_sub (a b : Z) : Result Z :=
  if b <=? a then Ok (a - b) else Revert (Panic 17).

(** The conversion [uint32(x)] truncates. *)
Definition uint32 (x : Z) : Z := x mod 2 ^ 32.

(** [array.length] as a uint256. *)
Definition len {A} (l : list A) : Z := Z.of_nat (length l).

(** A Solidity mapping reads its default where nothing was written. *)
Definition mapping_get {V} (d : V) (m : gmap Z V) (k : Z) : V :=
  default d (m !! k).

(** ** The inherited contracts *)

(** OpenZeppelin's Ownable (v5): the storage slot [_owner]. *)
Class Ownable (St : Type) : Type := {
  _owner : St -> address;
  set_owner : address -> St -> St
}.

(** OpenZeppelin's ReentrancyGuard (v5): the storage slot [_status]. *)
Class ReentrancyGuard (St : Type) : Type := {
  _status : St -> Z;
  set_status : Z -> St -> St
}.

(** The log of the events emitted so far. *)
Class Logging (St : Type) : Type := {
  log : St -> list Event.t;
  set_log : list Event.t -> St -> St
}.

Definition emit {St} `{Logging St} (e : Event.t) : M St unit :=
  modify (fun s => set_log (log s ++ [e]) s).

Module OZ.
Section Ownable.
Context {St : Type} `{Ownable St} `{Logging St}.

Definition _transferOwnership (newOwner : address) : M St unit :=
  let* oldOwner := gets _owner in
  modify (set_owner newOwner) ;;
  emit (Event.OwnershipTransferred oldOwner newOwner).

Definition Ownable_constructor (initialOwner : address) : M St unit :=
  (if bool_decide (initialOwner = 0)
   then revert (OwnableInvalidOwner 0) else ret tt) ;;
  _transferOwnership initialOwner.

Definition _checkOwner (env : Env) : M St unit :=
  let* o := gets _owner in
  if bool_decide (o = msg_sender env) then ret tt
  else revert (OwnableUnauthorizedAccount (msg_sender env)).

Definition onlyOwner {A} (env : Env) (body : M St A) : M St A :=
  _checkOwner env ;; body.

Definition renounceOwnership (env : Env) : M St unit :=
  onlyOwner env (_transferOwnership 0).

Definition transferOwnership (env : Env) (newOwner : address) : M St unit :=
  onlyOwner env (
    (if bool_decide (newOwner = 0)
     then revert (OwnableInvalidOwner 0) else ret tt) ;;
    _transferOwnership newOwner).
End Ownable.

Section ReentrancyGuard.
Context {St : Type} `{ReentrancyGuard St}.

Definition NOT_ENTERED : Z := 1.
Definition ENTERED : Z := 2.

Definition ReentrancyGuard_constructor : M St unit :=
  modify (set_status NOT_ENTERED).

Definition _nonReentrantBefore : M St unit :=
  let* st := gets _status in
  (if bool_decide (st = ENTERED)
   then revert ReentrancyGuardReentrantCall else ret tt) ;;
  modify (set_status ENTERED).

Definition _nonReentrantAfter : M St unit :=
  modify (set_status NOT_ENTERED).

Definition nonReentrant {A} (body : M St A) : M St A :=
  _nonReentrantBefore ;;
  let* r := body in
  _nonReentrantAfter ;;
  ret r.
End ReentrancyGuard.
End OZ.

(** fhevm's TFHE library, on the plaintexts the ciphertexts carry.  An
    [euint32] is a value below 2^32 and the arithmetic wraps around, as the
    library documents.  An encrypted input is the value it encrypts and
    the proofs the input verifier accepts for it.

    The library is not part of the repository.  Besides the values, it
    keeps an access-control list of the contracts that may use a
    ciphertext, and an operation on a stored ciphertext reverts when the
    calling contract is not on the list for it.  That list lies outside
    the storage of the two contracts and is not modelled: the operations
    below are total.  The properties stated of [vote] and
    [requestResults] are therefore about what a successful call does, and
    about when the checks of the contract itself make a call revert; where
    a lemma derives that such a call returns, it is of this model, in
    which the contract has access to every ciphertext it stored. *)
Module TFHE.
Definition euint32 : Type := Z.
Definition ebool : Type := bool.

Record einput : Type := {
  plaintext : Z;
  proofAccepted : bytes -> bool
}.

(** [TFHE.asEuint32(uint32)]: trivial encryption. *)
Definition asEuint32 (v : Z) : euint32 := uint32 v.

(** [TFHE.asEuint32(einput, bytes)]: input verification. *)
Definition asEuint32_input (e : einput) (inputProof : bytes) : Result euint32 :=
  if proofAccepted e inputProof then Ok (uint32 (plaintext e))
  else Revert InvalidInputProof.

Definition le (a b : euint32) : ebool := a <=? b.
Definition eq (a b : euint32) : ebool := a =? b.
Definition select (c : ebool) (a b : euint32) : euint32 := if c then a else b.
Definition add (a b : euint32) : euint32 := uint32 (a + b).
Definition decrypt (b : ebool) : bool := b.
End TFHE.

(** ** contract PrivateVoting *)
Module PrivateVoting.
Import OZ.

Inductive VotingState : Type :=
| NotStarted
| Active
| Ended
| ResultsRevealed.

#[global] Instance VotingState_eq_dec : EqDecision VotingState.
Proof. solve_decision. Defined.

Record VotingInfo : Type := {
  title : string;
  description : string;
  options : list string;
  startTime : Z;
  endTime : Z;
  state : VotingState;
  totalVoters : Z;
  resultsRequested : bool
}.

(** The storage of the contract, the inherited slots first, and the log. *)
Record State : Type := {
  owner_ : address;
  status_ : Z;
  encryptedVoteCounts : gmap Z TFHE.euint32;
  hasVoted : gmap Z bool;
  authorizedVoters : gmap Z bool;
  votingInfo : VotingInfo;
  decryptedResults : gmap Z Z;
  resultsDecrypted : bool;
  events : list Event.t
}.

(** Storage before the constructor runs: every slot is zero. *)
Definition zero : State := {|
  owner_ := 0;
  status_ := 0;
  encryptedVoteCounts := ∅;
  hasVoted := ∅;
  authorizedVoters := ∅;
  votingInfo := {| title := EmptyString; description := EmptyString;
                   options := []; startTime := 0; endTime := 0;
                   state := NotStarted; totalVoters := 0;
                   resultsRequested := false |};
  decryptedResults := ∅;
  resultsDecrypted := false;
  events := []
|}.

(** Assignments to one slot. *)
Definition set_owner_ (a : address) (s : State) : State :=
  {| owner_ := a; status_ := status_ s;
     encryptedVoteCounts := encryptedVoteCounts s; hasVoted := hasVoted s;
     authorizedVoters := authorizedVoters s; votingInfo := votingInfo s;
     decryptedResults := decryptedResults s;
     resultsDecrypted := resultsDecrypted s; events := events s |}.

Definition set_status_ (v : Z) (s : State) : State :=
  {| owner_ := owner_ s; status_ := v;
     encryptedVoteCounts := encryptedVoteCounts s; hasVoted := hasVoted s;
     authorizedVoters := authorizedVoters s; votingInfo := votingInfo s;
     decryptedResults := decryptedResults s;
     resultsDecrypted := resultsDecrypted s; events := events s |}.

Definition set_encryptedVoteCounts (m : gmap Z TFHE.euint32) (s : State) : State :=
  {| owner_ := owner_ s; status_ := status_ s;
     encryptedVoteCounts := m; hasVoted := hasVoted s;
     authorizedVoters := authorizedVoters s; votingInfo := votingInfo s;
     decryptedResults := decryptedResults s;
     resultsDecrypted := resultsDecrypted s; events := events s |}.

Definition set_hasVoted (m : gmap Z bool) (s : State) : State :=
  {| owner_ := owner_ s; status_ := status_ s;
     encryptedVoteCounts := encryptedVoteCounts s; hasVoted := m;
     authorizedVoters := authorizedVoters s; votingInfo := votingInfo s;
     decryptedResults := decryptedResults s;
     resultsDecrypted := resultsDecrypted s; events := events s |}.

Definition set_authorizedVoters (m : gmap Z bool) (s : State) : State :=
  {| owner_ := owner_ s; status_ := status_ s;
     encryptedVoteCounts := encryptedVoteCounts s; hasVoted := hasVoted s;
     authorizedVoters := m; votingInfo := votingInfo s;
     decryptedResults := decryptedResults s;
     resultsDecrypted := resultsDecrypted s; events := events s |}.

Definition set_votingInfo (v : VotingInfo) (s : State) : State :=
  {| owner_ := owner_ s; status_ := status_ s;
     encryptedVoteCounts := encryptedVoteCounts s; hasVoted := hasVoted s;
     authorizedVoters := authorizedVoters s; votingInfo := v;
     decryptedResults := decryptedResults s;
     resultsDecrypted := resultsDecrypted s; events := events s |}.

Definition set_decryptedResults (m : gmap Z Z) (s : State) : State :=
  {| owner_ := owner_ s; status_ := status_ s;
     encryptedVoteCounts := encryptedVoteCounts s; hasVoted := hasVoted s;
     authorizedVoters := authorizedVoters s; votingInfo := votingInfo s;
     decryptedResults := m;
     resultsDecrypted := resultsDecrypted s; events := events s |}.

Definition set_resultsDecrypted (b : bool) (s : State) : State :=
  {| owner_ := owner_ s; status_ := status_ s;
     encryptedVoteCounts := encryptedVoteCounts s; hasVoted := hasVoted s;
     authorizedVoters := authorizedVoters s; votingInfo := votingInfo s;
     decryptedResults := decryptedResults s;
     resultsDecrypted := b; events := events s |}.

Definition set_events (l : list Event.t) (s : State) : State :=
  {| owner_ := owner_ s; status_ := status_ s;
     encryptedVoteCounts := encryptedVoteCounts s; hasVoted := hasVoted s;
     authorizedVoters := authorizedVoters s; votingInfo := votingInfo s;
     decryptedResults := decryptedResults s;
     resultsDecrypted := resultsDecrypted s; events := l |}.

Definition set_state (v : VotingState) (i : VotingInfo) : VotingInfo :=
  {| title := title i; description := description i; options := options i;
     startTime := startTime i; endTime := endTime i; state := v;
     totalVoters := totalVoters i; resultsRequested := resultsRequested i |}.

Definition set_totalVoters (n : Z) (i : VotingInfo) : VotingInfo :=
  {| title := title i; description := description i; options := options i;
     startTime := startTime i; endTime := endTime i; state := state i;
     totalVoters := n; resultsRequested := resultsRequested i |}.

Definition set_resultsRequested (b : bool) (i : VotingInfo) : VotingInfo :=
  {| title := title i; description := description i; options := options i;
     startTime := startTime i; endTime := endTime i; state := state i;
     totalVoters := totalVoters i; resultsRequested := b |}.

#[global] Instance State_Ownable : Ownable State :=
  {| _owner := owner_; set_owner := set_owner_ |}.
#[global] Instance State_ReentrancyGuard : ReentrancyGuard State :=
  {| _status := status_; set_status := set_status_ |}.
#[global] Instance State_Logging : Logging State :=
  {| log := events; set_log := set_events |}.

(** Reads of the mappings and of [votingInfo.options.length]. *)
Definition count (s : State) (i : Z) : TFHE.euint32 :=
  mapping_get 0 (encryptedVoteCounts s) i.
Definition voted (s : State) (a : address) : bool :=
  mapping_get false (hasVoted s) a.
Definition authorized (s : State) (a : address) : bool :=
  mapping_get false (authorizedVoters s) a.
Definition result (s : State) (i : Z) : Z :=
  mapping_get 0 (decryptedResults s) i.
Definition options_length (s : State) : Z := len (options (votingInfo s)).

(** *** Modifiers *)

Definition onlyDuringVoting {A} (env : Env) (body : M State A) : M State A :=
  let* info := gets votingInfo in
  require ((startTime info <=? block_timestamp env) &&
           (block_timestamp env <=? endTime info)) "Voting is not active" ;;
  let* info := gets votingInfo in
  require (bool_decide (state info = Active)) "Voting is not active" ;;
  body.

Definition onlyAuthorizedVoter {A} (env : Env) (body : M State A) : M State A :=
  let* ok := gets (fun s => authorized s (msg_sender env)) in
  require ok "Not authorized to vote" ;;
  body.

Definition hasNotVoted {A} (env : Env) (body : M State A) : M State A :=
  let* v := gets (fun s => voted s (msg_sender env)) in
  require (negb v) "Already voted" ;;
  body.

Definition onlyAfterVoting {A} (env : Env) (body : M State A) : M State A :=
  let* info := gets votingInfo in
  require ((endTime info <? block_timestamp env) ||
           bool_decide (state info = Ended)) "Voting is still active" ;;
  body.

(** GatewayCaller's modifier: a require without a message. *)
Definition onlyGateway {A} (env : Env) (body : M State A) : M State A :=
  (if bool_decide (msg_sender env = gatewayContractAddress env)
   then ret tt else revert RequireNoData) ;;
  body.
(** *** Constructor *)

Definition constructor (env : Env) (_title _description : string)
    (_options : list string) (_startTime _endTime : Z) : M State unit :=
  Ownable_constructor (msg_sender env) ;;
  ReentrancyGuard_constructor ;;
  require (2 <=? len _options) "At least 2 options required" ;;
  require (len _options <=? 10) "Maximum 10 options allowed" ;;
  require (_startTime <? _endTime) "Invalid time range" ;;
  require (block_timestamp env <? _endTime) "End time must be in future" ;;
  modify (set_votingInfo {|
    title := _title;
    description := _description;
    options := _options;
    startTime := _startTime;
    endTime := _endTime;
    state := if _startTime <=? block_timestamp env then Active else NotStarted;
    totalVoters := 0;
    resultsRequested := false |}) ;;
  (* Initialize encrypted vote counts to 0 *)
  for_loop (length _options) 0 (fun i =>
    modify (fun s => set_encryptedVoteCounts
                       (<[i := TFHE.asEuint32 0]> (encryptedVoteCounts s)) s)) ;;
  (* Authorize the contract owner to vote *)
  modify (fun s => set_authorizedVoters
                     (<[msg_sender env := true]> (authorizedVoters s)) s) ;;
  emit (Event.VotingCreated _title _startTime _endTime).

(** [new PrivateVoting(...)]: the constructor runs on zeroed storage. *)
Definition deploy (env : Env) (_title _description : string)
    (_options : list string) (_startTime _endTime : Z) : Result State :=
  match constructor env _title _description _options _startTime _endTime zero with
  | Ok (_, s) => Ok s
  | Revert e => Revert e
  end.

(** *** External functions *)

Definition vote (env : Env) (encryptedVote : TFHE.einput) (inputProof : bytes)
    : M State unit :=
  onlyDuringVoting env (onlyAuthorizedVoter env (hasNotVoted env (nonReentrant (
    (* Convert encrypted input to euint32 *)
    let* vote := lift (TFHE.asEuint32_input encryptedVote inputProof) in
    (* Verify vote is within valid range (0 to options.length - 1) *)
    let* n := gets options_length in
    let* m := lift (checked_sub n 1) in
    let maxOption := TFHE.asEuint32 (uint32 m) in
    let isValidVote := TFHE.le vote maxOption in
    require (TFHE.decrypt isValidVote) "Invalid vote option" ;;
    (* Update vote counts for each option *)
    let* k := gets (fun s => length (options (votingInfo s))) in
    for_loop k 0 (fun i =>
      let optionIndex := TFHE.asEuint32 (uint32 i) in
      let isThisOption := TFHE.eq vote optionIndex in
      let voteIncrement :=
        TFHE.select isThisOption (TFHE.asEuint32 1) (TFHE.asEuint32 0) in
      modify (fun s => set_encryptedVoteCounts
                         (<[i := TFHE.add (count s i) voteIncrement]>
                            (encryptedVoteCounts s)) s)) ;;
    (* Mark voter as having voted *)
    modify (fun s => set_hasVoted (<[msg_sender env := true]> (hasVoted s)) s) ;;
    let* t := gets (fun s => totalVoters (votingInfo s)) in
    let* t' := lift (checked_add t 1) in
    modify (fun s => set_votingInfo (set_totalVoters t' (votingInfo s)) s) ;;
    emit (Event.VoteCast (msg_sender env) (block_timestamp env)))))).

Definition authorizeVoter (env : Env) (voter : address) : M State unit :=
  onlyOwner env (
    require (negb (bool_decide (voter = 0))) "Invalid address" ;;
    modify (fun s => set_authorizedVoters
                       (<[voter := true]> (authorizedVoters s)) s) ;;
    emit (Event.VoterAuthorized voter)).

Fixpoint authorizeVoters_loop (voters : list address) : M State unit :=
  match voters with
  | [] => ret tt
  | v :: rest =>
      require (negb (bool_decide (v = 0))) "Invalid address" ;;
      modify (fun s => set_authorizedVoters
                         (<[v := true]> (authorizedVoters s)) s) ;;
      emit (Event.VoterAuthorized v) ;;
      authorizeVoters_loop rest
  end.

Definition authorizeVoters (env : Env) (voters : list address) : M State unit :=
  onlyOwner env (authorizeVoters_loop voters).

Definition revokeVoter (env : Env) (voter : address) : M State unit :=
  onlyOwner env (
    modify (fun s => set_authorizedVoters
                       (<[voter := false]> (authorizedVoters s)) s) ;;
    emit (Event.VoterRevoked voter)).

Definition endVoting (env : Env) : M State unit :=
  onlyOwner env (
    let* info := gets votingInfo in
    require (bool_decide (state info = Active)) "Voting not active" ;;
    modify (fun s => set_votingInfo (set_state Ended (votingInfo s)) s) ;;
    emit (Event.VotingEnded (block_timestamp env))).

Definition startVoting (env : Env) : M State unit :=
  onlyOwner env (
    let* info := gets votingInfo in
    require (bool_decide (state info = NotStarted)) "Voting already started" ;;
    require (startTime info <=? block_timestamp env) "Start time not reached" ;;
    modify (fun s => set_votingInfo (set_state Active (votingInfo s)) s)).

Definition requestResults (env : Env) : M State unit :=
  onlyOwner env (onlyAfterVoting env (
    let* info := gets votingInfo in
    require (negb (resultsRequested info)) "Results already requested" ;;
    modify (fun s => set_votingInfo (set_resultsRequested true (votingInfo s)) s) ;;
    modify (fun s => set_votingInfo (set_state Ended (votingInfo s)) s) ;;
    (* Request decryption for all vote counts *)
    let* k := gets (fun s => length (options (votingInfo s))) in
    for_loop k 0 (fun i =>
      (* TFHE.allowThis(encryptedVoteCounts[i]): an entry in the library's
         access-control list, which is not modelled; the call reverts when
         the contract has no access to the count, which is not modelled
         either *)
      let* c := gets (fun s => count s i) in
      let* maxTimestamp := lift (checked_add (block_timestamp env) 100) in
      emit (Event.GatewayRequestDecryption [c] "callbackResults" 0 maxTimestamp false)) ;;
    emit (Event.ResultsRequested (block_timestamp env)))).

(** The loop of [callbackResults]: [rest] is what is left of
    [decryptedInput] from index [i] on, so that [i < decryptedInput.length]
    is [rest] being non-empty. *)
Fixpoint callbackResults_loop (i : Z) (rest : list Z) : M State unit :=
  match rest with
  | [] => ret tt
  | x :: rest' =>
      let* n := gets options_length in
      if i <? n then
        modify (fun s => set_decryptedResults
                           (<[i := uint32 x]> (decryptedResults s)) s) ;;
        callbackResults_loop (i + 1) rest'
      else ret tt
  end.

Definition callbackResults (env : Env) (requestId : Z) (decryptedInput : list Z)
    : M State unit :=
  onlyGateway env (
    (* Store decrypted results *)
    callbackResults_loop 0 decryptedInput ;;
    modify (set_resultsDecrypted true) ;;
    modify (fun s => set_votingInfo (set_state ResultsRevealed (votingInfo s)) s) ;;
    emit (Event.ResultsRevealed decryptedInput)).

(** *** View functions *)

Definition getEncryptedVoteCount (optionIndex : Z) : M State TFHE.euint32 :=
  let* n := gets options_length in
  require (optionIndex <? n) "Invalid option index" ;;
  gets (fun s => count s optionIndex).

Definition getResults : M State (list Z) :=
  let* d := gets resultsDecrypted in
  require d "Results not yet decrypted" ;;
  gets (fun s => map (fun i => result s (Z.of_nat i))
                     (seq 0 (length (options (votingInfo s))))).

Definition getVotingInfo : M State VotingInfo := gets votingInfo.

Definition getOptions : M State (list string) :=
  gets (fun s => options (votingInfo s)).

Definition isVotingActive (env : Env) : M State bool :=
  gets (fun s =>
    bool_decide (state (votingInfo s) = Active) &&
    (startTime (votingInfo s) <=? block_timestamp env) &&
    (block_timestamp env <=? endTime (votingInfo s))).

Definition getCurrentState (env : Env) : M State VotingState :=
  gets (fun s =>
    let info := votingInfo s in
    if bool_decide (state info = NotStarted) &&
       (startTime info <=? block_timestamp env) then Active
    else if bool_decide (state info = Active) &&
            (endTime info <? block_timestamp env) then Ended
    else state info).

(** *** The calls of the contract *)

(** The state-changing external functions, the inherited ones included. *)
Inductive Call : Type :=
| Vote (encryptedVote : TFHE.einput) (inputProof : bytes)
| AuthorizeVoter (voter : address)
| AuthorizeVoters (voters : list address)
| RevokeVoter (voter : address)
| EndVoting
| StartVoting
| RequestResults
| CallbackResults (requestId : Z) (decryptedInput : list Z)
| TransferOwnership (newOwner : address)
| RenounceOwnership.

Definition execute (env : Env) (c : Call) : M State unit :=
  match c with
  | Vote e p => vote env e p
  | AuthorizeVoter v => authorizeVoter env v
  | AuthorizeVoters vs => authorizeVoters env vs
  | RevokeVoter v => revokeVoter env v
  | EndVoting => endVoting env
  | StartVoting => startVoting env
  | RequestResults => requestResults env
  | CallbackResults r d => callbackResults env r d
  | TransferOwnership o => transferOwnership env o
  | RenounceOwnership => renounceOwnership env
  end.

(** The view functions, by the type of what they return. *)
Inductive View : Type -> Type :=
| GetEncryptedVoteCount (optionIndex : Z) : View TFHE.euint32
| GetResults : View (list Z)
| GetVotingInfo : View VotingInfo
| GetOptions : View (list string)
| IsVotingActive : View bool
| GetCurrentState : View VotingState.

Definition query {A} (env : Env) (v : View A) : M State A :=
  match v with
  | GetEncryptedVoteCount i => getEncryptedVoteCount i
  | GetResults => getResults
  | GetVotingInfo => getVotingInfo
  | GetOptions => getOptions
  | IsVotingActive => isVotingActive env
  | GetCurrentState => getCurrentState env
  end.

(** The order of the enum. *)
Definition rank (v : VotingState) : Z :=
  match v with
  | NotStarted => 0
  | Active => 1
  | Ended => 2
  | ResultsRevealed => 3
  end.
End PrivateVoting.

(** ** contract VotingFactory *)
Module VotingFactory.
Import OZ.

Record VotingContract : Type := {
  contractAddress : address;
  creator : address;
  title : string;
  createdAt : Z;
  isActive : bool
}.

(** The storage of the factory, its log, and the PrivateVoting contracts it
    has created on the chain, by address: [createVoting] writes both. *)
Record State : Type := {
  owner_ : address;
  status_ : Z;
  votingContracts : list VotingContract;
  creatorToVotings : gmap Z (list Z);
  isValidVotingContract : gmap Z bool;
  events : list Event.t;
  votings : gmap Z PrivateVoting.State
}.

Definition set_owner_ (a : address) (s : State) : State :=
  {| owner_ := a; status_ := status_ s; votingContracts := votingContracts s;
     creatorToVotings := creatorToVotings s;
     isValidVotingContract := isValidVotingContract s;
     events := events s; votings := votings s |}.

Definition set_status_ (v : Z) (s : State) : State :=
  {| owner_ := owner_ s; status_ := v; votingContracts := votingContracts s;
     creatorToVotings := creatorToVotings s;
     isValidVotingContract := isValidVotingContract s;
     events := events s; votings := votings s |}.

Definition set_votingContracts (l : list VotingContract) (s : State) : State :=
  {| owner_ := owner_ s; status_ := status_ s; votingContracts := l;
     creatorToVotings := creatorToVotings s;
     isValidVotingContract := isValidVotingContract s;
     events := events s; votings := votings s |}.

Definition set_creatorToVotings (m : gmap Z (list Z)) (s : State) : State :=
  {| owner_ := owner_ s; status_ := status_ s;
     votingContracts := votingContracts s; creatorToVotings := m;
     isValidVotingContract := isValidVotingContract s;
     events := events s; votings := votings s |}.

Definition set_isValidVotingContract (m : gmap Z bool) (s : State) : State :=
  {| owner_ := owner_ s; status_ := status_ s;
     votingContracts := votingContracts s;
     creatorToVotings := creatorToVotings s; isValidVotingContract := m;
     events := events s; votings := votings s |}.

Definition set_events (l : list Event.t) (s : State) : State :=
  {| owner_ := owner_ s; status_ := status_ s;
     votingContracts := votingContracts s;
     creatorToVotings := creatorToVotings s;
     isValidVotingContract := isValidVotingContract s;
     events := l; votings := votings s |}.

Definition set_votings (m : gmap Z PrivateVoting.State) (s : State) : State :=
  {| owner_ := owner_ s; status_ := status_ s;
     votingContracts := votingContracts s;
     creatorToVotings := creatorToVotings s;
     isValidVotingContract := isValidVotingContract s;
     events := events s; votings := m |}.

Definition set_isActive (b : bool) (v : VotingContract) : VotingContract :=
  {| contractAddress := contractAddress v; creator := creator v;
     title := title v; createdAt := createdAt v; isActive := b |}.

#[global] Instance State_Ownable : Ownable State :=
  {| _owner := owner_; set_owner := set_owner_ |}.
#[global] Instance State_ReentrancyGuard : ReentrancyGuard State :=
  {| _status := status_; set_status := set_status_ |}.
#[global] Instance State_Logging : Logging State :=
  {| log := events; set_log := set_events |}.

Definition zero : State := {|
  owner_ := 0; status_ := 0; votingContracts := [];
  creatorToVotings := ∅; isValidVotingContract := ∅; events := [];
  votings := ∅
|}.

Definition isValid (s : State) (a : address) : bool :=
  mapping_get false (isValidVotingContract s) a.
Definition votingsOf (s : State) (a : address) : list Z :=
  mapping_get [] (creatorToVotings s) a.

(** [array[i]]: an index out of range panics with 0x32. *)
Definition index {A} (l : list A) (i : Z) : Result A :=
  match l !! Z.to_nat i with
  | Some x => Ok x
  | None => Revert (Panic 50)
  end.

Definition constructor (env : Env) : M State unit :=
  Ownable_constructor (msg_sender env) ;;
  ReentrancyGuard_constructor.

Definition deploy (env : Env) : Result State :=
  match constructor env zero with
  | Ok (_, s) => Ok s
  | Revert e => Revert e
  end.

(** The environment of the calls the factory makes to the contract it
    creates: the factory is their [msg.sender]. *)
Definition inner (env : Env) : Env := {|
  msg_sender := this env;
  block_timestamp := block_timestamp env;
  this := createdAddress env;
  gatewayContractAddress := gatewayContractAddress env;
  createdAddress := createdAddress env
|}.

(** An external call to another contract: its revert bubbles up. *)
Definition external {St A} (c : M St A) (s : St) : Result St :=
  match c s with
  | Ok (_, s') => Ok s'
  | Revert e => Revert e
  end.

Definition createVoting (env : Env) (_title _description : string)
    (_options : list string) (_startTime _endTime : Z) : M State address :=
  nonReentrant (
    require (0 <? Z.of_nat (String.length _title)) "Title cannot be empty" ;;
    require (2 <=? len _options) "At least 2 options required" ;;
    require (_startTime <? _endTime) "Invalid time range" ;;
    (* Create new voting contract *)
    let* newVoting := lift (PrivateVoting.deploy (inner env) _title _description
                              _options _startTime _endTime) in
    let votingAddress := createdAddress env in
    (* Transfer ownership to the creator *)
    let* newVoting := lift (external (transferOwnership (inner env) (msg_sender env))
                              newVoting) in
    modify (fun s => set_votings (<[votingAddress := newVoting]> (votings s)) s) ;;
    (* Store voting contract information *)
    let votingContract := {|
      contractAddress := votingAddress;
      creator := msg_sender env;
      title := _title;
      createdAt := block_timestamp env;
      isActive := true |} in
    modify (fun s => set_votingContracts (votingContracts s ++ [votingContract]) s) ;;
    let* n := gets (fun s => len (votingContracts s)) in
    let* votingIndex := lift (checked_sub n 1) in
    modify (fun s => set_creatorToVotings
                       (<[msg_sender env := votingsOf s (msg_sender env) ++ [votingIndex]]>
                          (creatorToVotings s)) s) ;;
    modify (fun s => set_isValidVotingContract
                       (<[votingAddress := true]> (isValidVotingContract s)) s) ;;
    emit (Event.VotingContractCreated votingAddress (msg_sender env) _title
            (block_timestamp env)) ;;
    ret votingAddress).

Fixpoint findVotingIndex_loop (i : Z) (rest : list VotingContract)
    (_votingAddress : address) : Result Z :=
  match rest with
  | [] => Revert (Require "Voting contract not found")
  | c :: rest' =>
      if bool_decide (contractAddress c = _votingAddress) then Ok i
      else findVotingIndex_loop (i + 1) rest' _votingAddress
  end.

Definition findVotingIndex (_votingAddress : address) : M State Z :=
  let* l := gets votingContracts in
  lift (findVotingIndex_loop 0 l _votingAddress).

Definition deactivateVoting (env : Env) (_votingAddress : address) : M State unit :=
  let* valid := gets (fun s => isValid s _votingAddress) in
  require valid "Invalid voting contract" ;;
  (* Find the voting contract *)
  let* votingIndex := findVotingIndex _votingAddress in
  let* n := gets (fun s => len (votingContracts s)) in
  require (votingIndex <? n) "Voting not found" ;;
  let* l := gets votingContracts in
  let* voting := lift (index l votingIndex) in
  let* o := gets _owner in
  require (bool_decide (creator voting = msg_sender env) ||
           bool_decide (o = msg_sender env)) "Not authorized to deactivate" ;;
  require (isActive voting) "Voting already deactivated" ;;
  modify (fun s => set_votingContracts
                     (<[Z.to_nat votingIndex := set_isActive false voting]>
                        (votingContracts s)) s) ;;
  emit (Event.VotingContractDeactivated _votingAddress (block_timestamp env)).

Definition emergencyUpdateVotingStatus (env : Env) (_votingAddress : address)
    (_isActive : bool) : M State unit :=
  onlyOwner env (
    let* valid := gets (fun s => isValid s _votingAddress) in
    require valid "Invalid voting contract" ;;
    let* votingIndex := findVotingIndex _votingAddress in
    let* l := gets votingContracts in
    let* voting := lift (index l votingIndex) in
    modify (fun s => set_votingContracts
                       (<[Z.to_nat votingIndex := set_isActive _isActive voting]>
                          (votingContracts s)) s) ;;
    if negb _isActive
    then emit (Event.VotingContractDeactivated _votingAddress (block_timestamp env))
    else ret tt).

(** *** View functions *)

Definition getAllVotings : M State (list VotingContract) := gets votingContracts.

Definition getActiveVotings : M State (list VotingContract) :=
  gets (fun s => filter (fun v => isActive v = true) (votingContracts s)).

Fixpoint getVotingsByCreator_loop (all : list VotingContract)
    (votingIndices : list Z) : Result (list VotingContract) :=
  match votingIndices with
  | [] => Ok []
  | i :: rest =>
      match index all i with
      | Ok v =>
          match getVotingsByCreator_loop all rest with
          | Ok vs => Ok (v :: vs)
          | Revert e => Revert e
          end
      | Revert e => Revert e
      end
  end.

Definition getVotingsByCreator (_creator : address) : M State (list VotingContract) :=
  let* votingIndices := gets (fun s => votingsOf s _creator) in
  let* all := gets votingContracts in
  lift (getVotingsByCreator_loop all votingIndices).

Definition getVotingByAddress (_votingAddress : address) : M State VotingContract :=
  let* valid := gets (fun s => isValid s _votingAddress) in
  require valid "Invalid voting contract" ;;
  let* votingIndex := findVotingIndex _votingAddress in
  let* n := gets (fun s => len (votingContracts s)) in
  require (votingIndex <? n) "Voting not found" ;;
  let* l := gets votingContracts in
  lift (index l votingIndex).

Definition getTotalVotingsCount : M State Z :=
  gets (fun s => len (votingContracts s)).

Definition getActiveVotingsCount : M State Z :=
  gets (fun s => len (filter (fun v => isActive v = true) (votingContracts s))).

Definition getCreatorVotingsCount (_creator : address) : M State Z :=
  gets (fun s => len (votingsOf s _creator)).

Definition isValidVoting (_votingAddress : address) : M State bool :=
  gets (fun s => isValid s _votingAddress).

Definition getPaginatedVotings (_offset _limit : Z)
    : M State (list VotingContract * Z) :=
  require (0 <? _limit) "Limit must be greater than 0" ;;
  let* n := gets (fun s => len (votingContracts s)) in
  require (_offset <? n) "Offset out of bounds" ;;
  let* end0 := lift (checked_add _offset _limit) in
  let end_ := if n <? end0 then n else end0 in
  let* length := lift (checked_sub end_ _offset) in
  let* l := gets votingContracts in
  ret (take (Z.to_nat length) (drop (Z.to_nat _offset) l), n).

(** *** The calls of the contract *)

Inductive Call : Type -> Type :=
| CreateVoting (_title _description : string) (_options : list string)
    (_startTime _endTime : Z) : Call address
| DeactivateVoting (_votingAddress : address) : Call unit
| EmergencyUpdateVotingStatus (_votingAddress : address) (_isActive : bool)
    : Call unit
| TransferOwnership (newOwner : address) : Call unit
| RenounceOwnership : Call unit
| GetAllVotings : Call (list VotingContract)
| GetActiveVotings : Call (list VotingContract)
| GetVotingsByCreator (_creator : address) : Call (list VotingContract)
| GetVotingByAddress (_votingAddress : address) : Call VotingContract
| GetTotalVotingsCount : Call Z
| GetActiveVotingsCount : Call Z
| GetCreatorVotingsCount (_creator : address) : Call Z
| IsValidVoting (_votingAddress : address) : Call bool
| GetPaginatedVotings (_offset _limit : Z) : Call (list VotingContract * Z).

Definition execute {A} (env : Env) (c : Call A) : M State A :=
  match c with
  | CreateVoting t d o st et => createVoting env t d o st et
  | DeactivateVoting a => deactivateVoting env a
  | EmergencyUpdateVotingStatus a b => emergencyUpdateVotingStatus env a b
  | TransferOwnership o => transferOwnership env o
  | RenounceOwnership => renounceOwnership env
  | GetAllVotings => getAllVotings
  | GetActiveVotings => getActiveVotings
  | GetVotingsByCreator a => getVotingsByCreator a
  | GetVotingByAddress a => getVotingByAddress a
  | GetTotalVotingsCount => getTotalVotingsCount
  | GetActiveVotingsCount => getActiveVotingsCount
  | GetCreatorVotingsCount a => getCreatorVotingsCount a
  | IsValidVoting a => isValidVoting a
  | GetPaginatedVotings o l => getPaginatedVotings o l
  end.
End VotingFactory.

(** * Specifications *)

(** [stable R c]: a successful run of [c] relates the state before to the
    state after by [R]. *)
Definition stable {St A} (R : St -> St -> Prop) (c : M St A) : Prop :=
  forall s a s', c s = Ok (a, s') -> R s s'.

Module PrivateVotingSpec.
Import PrivateVoting OZ.

(** What the loop of [vote] adds to option [i]. *)
Definition voteIncrement (vote i : Z) : TFHE.euint32 :=
  TFHE.select (TFHE.eq vote (TFHE.asEuint32 (uint32 i)))
    (TFHE.asEuint32 1) (TFHE.asEuint32 0).

(** The counts after [n] iterations of the loop of [vote] from index [i]. *)
Fixpoint tally (vote : Z) (n : nat) (i : Z) (m : gmap Z TFHE.euint32)
    : gmap Z TFHE.euint32 :=
  match n with
  | O => m
  | S n' =>
      tally vote n' (i + 1)
        (<[i := TFHE.add (mapping_get 0 m i) (voteIncrement vote i)]> m)
  end.

(** The checks a vote has to pass. *)
Definition vote_checks (env : Env) (e : TFHE.einput) (p : bytes) (s : State) : Prop :=
  startTime (votingInfo s) <= block_timestamp env <= endTime (votingInfo s) /\
  state (votingInfo s) = Active /\
  authorized s (msg_sender env) = true /\
  voted s (msg_sender env) = false /\
  status_ s <> ENTERED /\
  TFHE.proofAccepted e p = true /\
  1 <= options_length s /\
  uint32 (TFHE.plaintext e) <= TFHE.asEuint32 (uint32 (options_length s - 1)) /\
  totalVoters (votingInfo s) + 1 <= MAX_UINT256.

(** The state a successful vote leaves. *)
Definition vote_post (env : Env) (e : TFHE.einput) (s : State) : State := {|
  owner_ := owner_ s;
  status_ := NOT_ENTERED;
  encryptedVoteCounts :=
    tally (uint32 (TFHE.plaintext e)) (length (options (votingInfo s))) 0
      (encryptedVoteCounts s);
  hasVoted := <[msg_sender env := true]> (hasVoted s);
  authorizedVoters := authorizedVoters s;
  votingInfo := set_totalVoters (totalVoters (votingInfo s) + 1) (votingInfo s);
  decryptedResults := decryptedResults s;
  resultsDecrypted := resultsDecrypted s;
  events := events s ++ [Event.VoteCast (msg_sender env) (block_timestamp env)]
|}.

(** The counts after the loop of the constructor. *)
Fixpoint zeroed (n : nat) (i : Z) (m : gmap Z TFHE.euint32) : gmap Z TFHE.euint32 :=
  match n with
  | O => m
  | S n' => zeroed n' (i + 1) (<[i := TFHE.asEuint32 0]> m)
  end.

(** The state a successful constructor leaves. *)
Definition constructed (env : Env) (_title _description : string)
    (_options : list string) (_startTime _endTime : Z) : State := {|
  owner_ := msg_sender env;
  status_ := NOT_ENTERED;
  encryptedVoteCounts := zeroed (length _options) 0 ∅;
  hasVoted := ∅;
  authorizedVoters := {[ msg_sender env := true ]};
  votingInfo := {|
    title := _title; description := _description; options := _options;
    startTime := _startTime; endTime := _endTime;
    state := if _startTime <=? block_timestamp env then Active else NotStarted;
    totalVoters := 0; resultsRequested := false |};
  decryptedResults := ∅;
  resultsDecrypted := false;
  events := [Event.OwnershipTransferred 0 (msg_sender env);
             Event.VotingCreated _title _startTime _endTime]
|}.

(** The results after the loop of [callbackResults] from index [i], with
    [n] options. *)
Fixpoint stored (i : Z) (rest : list Z) (n : Z) (m : gmap Z Z) : gmap Z Z :=
  match rest with
  | [] => m
  | x :: rest' =>
      if i <? n then stored (i + 1) rest' n (<[i := uint32 x]> m) else m
  end.

(** The state a callback of the gateway leaves. *)
Definition callback_post (decryptedInput : list Z) (s : State) : State := {|
  owner_ := owner_ s;
  status_ := status_ s;
  encryptedVoteCounts := encryptedVoteCounts s;
  hasVoted := hasVoted s;
  authorizedVoters := authorizedVoters s;
  votingInfo := set_state ResultsRevealed (votingInfo s);
  decryptedResults := stored 0 decryptedInput (options_length s) (decryptedResults s);
  resultsDecrypted := true;
  events := events s ++ [Event.ResultsRevealed decryptedInput]
|}.

(** One call as a transaction, and a sequence of them. *)
Definition step (s : State) (ec : Env * Call) : State :=
  snd (transact (execute (fst ec) (snd ec)) s).

Definition run (calls : list (Env * Call)) (s : State) : State :=
  fold_left step calls s.

(** The states of a deployed contract: [reachable gw t s] when the contract
    is in state [s] at block time [t], after its construction and any calls
    from any senders, block times never decreasing, on a chain whose gateway
    is at [gw]. *)
Inductive reachable (gw : address) : Z -> State -> Prop :=
| reachable_deploy env _title _description _options _startTime _endTime s :
    gatewayContractAddress env = gw ->
    deploy env _title _description _options _startTime _endTime = Ok s ->
    reachable gw (block_timestamp env) s
| reachable_step env c t s :
    reachable gw t s ->
    gatewayContractAddress env = gw ->
    t <= block_timestamp env ->
    reachable gw (block_timestamp env) (step s (env, c)).

(** What holds of every reachable state. *)
Record invariant (s : State) : Prop := {
  inv_options : 2 <= options_length s <= 10;
  inv_times : startTime (votingInfo s) < endTime (votingInfo s);
  inv_counts : forall i, 0 <= count s i < 2 ^ 32;
  inv_status : status_ s = NOT_ENTERED;
  inv_voters : 0 <= totalVoters (votingInfo s)
}.

(** The relations the calls are shown to respect. *)
Definition same_votingInfo (s s' : State) : Prop := votingInfo s' = votingInfo s.
Definition same_hasVoted (s s' : State) : Prop := hasVoted s' = hasVoted s.
Definition same_counts (s s' : State) : Prop :=
  encryptedVoteCounts s' = encryptedVoteCounts s.
Definition same_status (s s' : State) : Prop := status_ s' = status_ s.
Definition same_results (s s' : State) : Prop :=
  decryptedResults s' = decryptedResults s /\
  resultsDecrypted s' = resultsDecrypted s.
Definition same_authorized (s s' : State) : Prop :=
  authorizedVoters s' = authorizedVoters s.
Definition same_owner (s s' : State) : Prop := owner_ s' = owner_ s.

(** A call that authorizes [u] explicitly. *)
Definition authorizes (u : address) (c : Call) : Prop :=
  match c with
  | AuthorizeVoter v => v = u
  | AuthorizeVoters vs => u ∈ vs
  | _ => False
  end.

(** *** A small poll, used to show the statements are not vacuous *)

(** A call by [sender] at block time [t]; the gateway is at address 900. *)
Definition call_env (sender t : Z) : Env := {|
  msg_sender := sender;
  block_timestamp := t;
  this := 700;
  gatewayContractAddress := 900;
  createdAddress := 701
|}.

(** A ballot encrypting [v], with a proof the verifier accepts. *)
Definition ballot (v : Z) : TFHE.einput :=
  {| TFHE.plaintext := v; TFHE.proofAccepted := fun _ => true |}.

(** Deployed by address 1 at time 5: three options, open from 10 to 100. *)
Definition poll : State :=
  constructed (call_env 1 5) "Poll" "Demo" ["A"; "B"; "C"] 10 100.

(** Started by its owner at time 10. *)
Definition poll_open : State := step poll (call_env 1 10, StartVoting).

(** The owner has voted for option 2 at time 11. *)
Definition poll_voted : State := step poll_open (call_env 1 11, Vote (ballot 2) []).

(** The gateway calls back at time 50, before any request. *)
Definition poll_revealed : State :=
  step poll (call_env 900 50, CallbackResults 0 [7; 8; 9; 10]).

(** *** The gateway answers requests *)

(** The gateway calls [callbackResults] on a contract only in answer to a
    decryption request of that contract.  The contract calls
    [Gateway.requestDecryption] in [requestResults] alone, after it has set
    [resultsRequested], and no call clears that flag: so a call of
    [callbackResults] that passes [onlyGateway] answers a request exactly
    when it finds [resultsRequested] set. *)
Definition answers_a_request (s : State) (env : Env) (c : Call) : Prop :=
  match c with
  | CallbackResults _ _ =>
      msg_sender env = gatewayContractAddress env ->
      resultsRequested (votingInfo s) = true
  | _ => True
  end.

(** The states of a deployed contract whose gateway answers requests:
    [reachable] with every call of the gateway an answer to a request. *)
Inductive answered (gw : address) : Z -> State -> Prop :=
| answered_deploy env _title _description _options _startTime _endTime s :
    gatewayContractAddress env = gw ->
    deploy env _title _description _options _startTime _endTime = Ok s ->
    answered gw (block_timestamp env) s
| answered_step env c t s :
    answered gw t s ->
    gatewayContractAddress env = gw ->
    t <= block_timestamp env ->
    answers_a_request s env c ->
    answered gw (block_timestamp env) (step s (env, c)).

(** After the end time the owner of [poll_voted] requests the results, and
    the gateway calls back. *)
Definition poll_requested : State :=
  step poll_voted (call_env 1 101, RequestResults).

Definition poll_answered : State :=
  step poll_requested (call_env 900 102, CallbackResults 0 [1]).

End PrivateVotingSpec.

Module VotingFactorySpec.
Import VotingFactory.

(** The voting contract [createVoting] leaves on the chain: constructed
    with the factory as [msg.sender], then handed over to the caller. *)
Definition created_voting (env : Env) (_title _description : string)
    (_options : list string) (_startTime _endTime : Z) : PrivateVoting.State :=
  let c := PrivateVotingSpec.constructed (inner env) _title _description _options
             _startTime _endTime in
  PrivateVoting.set_events
    (PrivateVoting.events c ++ [Event.OwnershipTransferred (this env) (msg_sender env)])
    (PrivateVoting.set_owner_ (msg_sender env) c).

(** A factory deployed by address 1 at time 0, at address 700. *)
Definition factory : State :=
  {| owner_ := 1; status_ := OZ.NOT_ENTERED; votingContracts := [];
     creatorToVotings := ∅; isValidVotingContract := ∅;
     events := [Event.OwnershipTransferred 0 1]; votings := ∅ |}.

(** Address 5 creates a voting through the factory at time 5. *)
Definition creator_env : Env := {|
  msg_sender := 5; block_timestamp := 5; this := 700;
  gatewayContractAddress := 900; createdAddress := 701
|}.

Definition factory_after : State :=
  snd (transact (createVoting creator_env "Poll" "Demo" ["A"; "B"; "C"] 10 100)
         factory).

(** The voting the tests of the repository work on: created through the
    factory by address 5, which becomes its owner. *)
Definition test_voting : PrivateVoting.State :=
  created_voting creator_env "Poll" "Demo" ["A"; "B"; "C"] 10 100.

(** A call of [test_voting] by [sender] at block time [t]. *)
Definition test_env (sender t : Z) : Env := {|
  msg_sender := sender; block_timestamp := t; this := 701;
  gatewayContractAddress := 900; createdAddress := 0
|}.
End VotingFactorySpec.

(** * Further specifications *)

Module PrivateVotingMore.
Import PrivateVoting OZ PrivateVotingSpec.

Definition sumZ (l : list Z) : Z := foldr Z.add 0 l.

(** The sum of the encrypted counts of the options. *)
Definition tally_sum (s : State) : Z :=
  sumZ (map (fun i => count s (Z.of_nat i))
          (seq 0 (length (options (votingInfo s))))).

(** The functions behind [onlyOwner]. *)
Definition owner_only (c : Call) : Prop :=
  match c with
  | AuthorizeVoter _ | AuthorizeVoters _ | RevokeVoter _ | EndVoting
  | StartVoting | RequestResults | TransferOwnership _ | RenounceOwnership => True
  | _ => False
  end.

(** Voting is over in the stored state. *)
Definition over (s : State) : Prop :=
  state (votingInfo s) = Ended \/ state (votingInfo s) = ResultsRevealed.

(** The decryption requests [requestResults] sends: one for each option, in
    order, each for the single ciphertext of that option's count. *)
Definition requests (env : Env) (s : State) : list Event.t :=
  map (fun i => Event.GatewayRequestDecryption [count s (Z.of_nat i)]
                  "callbackResults" 0 (block_timestamp env + 100) false)
      (seq 0 (length (options (votingInfo s)))).

(** The state a successful [requestResults] leaves. *)
Definition requested_post (env : Env) (s : State) : State := {|
  owner_ := owner_ s;
  status_ := status_ s;
  encryptedVoteCounts := encryptedVoteCounts s;
  hasVoted := hasVoted s;
  authorizedVoters := authorizedVoters s;
  votingInfo := set_state Ended (set_resultsRequested true (votingInfo s));
  decryptedResults := decryptedResults s;
  resultsDecrypted := resultsDecrypted s;
  events := events s ++ requests env s
            ++ [Event.ResultsRequested (block_timestamp env)]
|}.

(** Calls of [callbackResults] with a single value each, given as
    (environment, request id, value). *)
Definition single_callbacks (cs : list (Env * Z * Z)) : list (Env * Call) :=
  map (fun c => (fst (fst c), CallbackResults (snd (fst c)) [snd c])) cs.

(** One [authorizeVoter] for each address of a list. *)
Definition authorize_each (env : Env) (voters : list Z) : list (Env * Call) :=
  map (fun v => (env, AuthorizeVoter v)) voters.

(** The tally is the number of votes, as long as that is below 2^32. *)
Definition tally_exact (s : State) : Prop :=
  totalVoters (votingInfo s) < 2 ^ 32 -> tally_sum s = totalVoters (votingInfo s).

(** What the bookkeeping of every reachable state satisfies. *)
Record ledger (s : State) : Prop := {
  ledger_tally : tally_exact s;
  ledger_true : forall a b, hasVoted s !! a = Some b -> b = true;
  ledger_voters : Z.of_nat (size (hasVoted s)) = totalVoters (votingInfo s);
  ledger_results : resultsDecrypted s = false -> decryptedResults s = ∅;
  ledger_revealed :
    state (votingInfo s) = ResultsRevealed -> resultsDecrypted s = true
}.
End PrivateVotingMore.

Module VotingFactoryMore.
Import VotingFactory OZ VotingFactorySpec.

(** One call of the factory as a transaction. *)
Definition after_call {A} (s : State) (env : Env) (c : Call A) : State :=
  snd (transact (execute env c) s).

(** The states of a deployed factory, after any calls. *)
Inductive deployed : State -> Prop :=
| deployed_new env s : deploy env = Ok s -> deployed s
| deployed_call A env (c : Call A) s : deployed s -> deployed (after_call s env c).

(** The positions, counted from [i], at which [c] occurs in a list of
    creators. *)
Fixpoint indices_of (c : address) (i : Z) (creators : list Z) : list Z :=
  match creators with
  | [] => []
  | x :: rest =>
      (if bool_decide (x = c) then [i] else []) ++ indices_of c (i + 1) rest
  end.

(** What a registered voting never changes. *)
Definition identity (v : VotingContract) : Z * Z * string * Z :=
  (contractAddress v, creator v, title v, createdAt v).

(** What every deployed state of the factory satisfies. *)
Record registry (s : State) : Prop := {
  registry_valid :
    forall a, isValid s a = true <->
              exists v, v ∈ votingContracts s /\ contractAddress v = a;
  registry_creators :
    forall c, votingsOf s c = indices_of c 0 (map creator (votingContracts s));
  registry_status : status_ s = NOT_ENTERED
}.

(** The record [createVoting] stores. *)
Definition new_record (env : Env) (_title : string) : VotingContract := {|
  contractAddress := createdAddress env;
  creator := msg_sender env;
  title := _title;
  createdAt := block_timestamp env;
  isActive := true
|}.

(** The state a successful [createVoting] leaves. *)
Definition createVoting_post (env : Env) (_title _description : string)
    (_options : list string) (_startTime _endTime : Z) (s : State) : State := {|
  owner_ := owner_ s;
  status_ := NOT_ENTERED;
  votingContracts := votingContracts s ++ [new_record env _title];
  creatorToVotings :=
    <[msg_sender env := votingsOf s (msg_sender env) ++ [len (votingContracts s)]]>
      (creatorToVotings s);
  isValidVotingContract := <[createdAddress env := true]> (isValidVotingContract s);
  events := events s ++ [Event.VotingContractCreated (createdAddress env)
                           (msg_sender env) _title (block_timestamp env)];
  votings := <[createdAddress env :=
                 created_voting env _title _description _options _startTime _endTime]>
               (votings s)
|}.

(** The conditions under which [createVoting] succeeds. *)
Definition createVoting_checks (env : Env) (_title : string)
    (_options : list string) (_startTime _endTime : Z) (s : State) : Prop :=
  status_ s <> ENTERED /\
  (0 < String.length _title)%nat /\
  2 <= len _options <= 10 /\
  _startTime < _endTime /\
  block_timestamp env < _endTime /\
  this env <> 0 /\
  msg_sender env <> 0.

(** The votings from [_offset] on, at most [_limit] of them. *)
Definition page (l : list VotingContract) (_offset _limit : Z) : list VotingContract :=
  take (Z.to_nat _limit) (drop (Z.to_nat _offset) l).

(** The number of active votings. *)
Definition active_count (s : State) : Z :=
  len (filter (fun v => isActive v = true) (votingContracts s)).

(** *** The loops of [getActiveVotings] and [getActiveVotingsCount]

    [VotingFactory.getActiveVotings] gives the result of these loops as a
    filter; here they are as the contract runs them, over the votings still
    to visit. *)

(** for (i ...) if (votingContracts[i].isActive) activeCount++ *)
Fixpoint activeCount_loop (rest : list VotingContract) (activeCount : Z) : Result Z :=
  match rest with
  | [] => Ok activeCount
  | v :: rest' =>
      if isActive v then
        match checked_add activeCount 1 with
        | Ok c => activeCount_loop rest' c
        | Revert e => Revert e
        end
      else activeCount_loop rest' activeCount
  end.

(** The element of a fresh memory array. *)
Definition empty_record : VotingContract := {|
  contractAddress := 0; creator := 0; title := EmptyString; createdAt := 0;
  isActive := false
|}.

(** for (i ...) if (votingContracts[i].isActive)
      { activeVotings[currentIndex] = votingContracts[i]; currentIndex++; } *)
Fixpoint activeVotings_loop (rest activeVotings : list VotingContract)
    (currentIndex : Z) : Result (list VotingContract) :=
  match rest with
  | [] => Ok activeVotings
  | v :: rest' =>
      if isActive v then
        if currentIndex <? len activeVotings then
          match checked_add currentIndex 1 with
          | Ok c =>
              activeVotings_loop rest'
                (<[Z.to_nat currentIndex := v]> activeVotings) c
          | Revert e => Revert e
          end
        else Revert (Panic 50)
      else activeVotings_loop rest' activeVotings currentIndex
  end.

Definition getActiveVotings_loops : M State (list VotingContract) :=
  let* l := gets votingContracts in
  let* activeCount := lift (activeCount_loop l 0) in
  let activeVotings := replicate (Z.to_nat activeCount) empty_record in
  lift (activeVotings_loop l activeVotings 0).

Definition getActiveVotingsCount_loop : M State Z :=
  let* l := gets votingContracts in
  lift (activeCount_loop l 0).

(** The factory after address 6 has created a second voting at time 6, at
    address 702. *)
Definition second_env : Env := {|
  msg_sender := 6; block_timestamp := 6; this := 700;
  gatewayContractAddress := 900; createdAddress := 702
|}.

(** A call of the factory by [sender] at time 7. *)
Definition call_env_of (sender : Z) : Env := {|
  msg_sender := sender; block_timestamp := 7; this := 700;
  gatewayContractAddress := 900; createdAddress := 703
|}.

Definition factory_two : State :=
  after_call factory_after second_env (CreateVoting "Second" "Demo" ["Yes"; "No"] 20 200).
End VotingFactoryMore.
(** * Reasoning about calls *)

(** ** The monad, one step at a time *)

Section Steps.
Context {St : Type}.

Lemma bind_ret {A B} (a : A) (k : A -> M St B) s : bind (ret a) k s = k a s.
Proof. reflexivity. Qed.

Lemma bind_gets {A B} (f : St -> A) (k : A -> M St B) s :
  bind (gets f) k s = k (f s) s.
Proof. reflexivity. Qed.

Lemma bind_modify {B} (f : St -> St) (k : unit -> M St B) s :
  bind (modify f) k s = k tt (f s).
Proof. reflexivity. Qed.

Lemma bind_require {B} (c : bool) (msg : string) (k : unit -> M St B) s :
  bind (require c msg) k s = if c then k tt s else Revert (Require msg).
Proof. destruct c; reflexivity. Qed.

Lemma bind_lift {A B} (r : Result A) (k : A -> M St B) s :
  bind (lift r) k s = match r with Ok a => k a s | Revert e => Revert e end.
Proof. destruct r; reflexivity. Qed.

Lemma bind_emit `{Logging St} {B} (e : Event.t) (k : unit -> M St B) s :
  bind (emit e) k s = k tt (set_log (log s ++ [e]) s).
Proof. reflexivity. Qed.

Lemma bind_assoc {A B C} (c : M St A) (k : A -> M St B) (h : B -> M St C) s :
  bind (bind c k) h s = bind c (fun a => bind (k a) h) s.
Proof. unfold bind. destruct (c s) as [[a s']|e]; reflexivity. Qed.
End Steps.

(** Runs the computation at the head of the goal up to its next loop or
    conditional. *)
Ltac mstep :=
  repeat first
    [ rewrite bind_assoc
    | rewrite bind_ret
    | rewrite bind_gets
    | rewrite bind_modify
    | rewrite bind_require
    | rewrite bind_lift
    | rewrite bind_emit ].

(** ** Relations every successful run of a computation respects *)

Section Stable.
Context {St : Type} (R : St -> St -> Prop).
Context `{!Reflexive R} `{!Transitive R}.

Lemma stable_ret {A} (a : A) : stable R (ret a).
Proof. intros s a' s' [= _ <-]. reflexivity. Qed.

Lemma stable_revert {A} (e : Error) : stable R (revert (A := A) e).
Proof. intros s a s' [=]. Qed.

Lemma stable_gets {A} (f : St -> A) : stable R (gets f).
Proof. intros s a s' [= _ <-]. reflexivity. Qed.

Lemma stable_require (c : bool) (msg : string) : stable R (require c msg).
Proof. destruct c; [apply stable_ret | apply stable_revert]. Qed.

Lemma stable_lift {A} (r : Result A) : stable R (lift r).
Proof. intros s a s'. unfold lift. destruct r; intros [=]; subst. reflexivity. Qed.

Lemma stable_modify (f : St -> St) : (forall s, R s (f s)) -> stable R (modify f).
Proof. intros Hf s a s' [= _ <-]. apply Hf. Qed.

Lemma stable_bind {A B} (c : M St A) (k : A -> M St B) :
  stable R c -> (forall a, stable R (k a)) -> stable R (bind c k).
Proof.
  intros Hc Hk s b s'. unfold bind.
  destruct (c s) as [[a s1]|e] eqn:E; [|intros [=]].
  intros Hks. transitivity s1; [eapply Hc | eapply Hk]; eassumption.
Qed.

Lemma stable_if {A} (b : bool) (c1 c2 : M St A) :
  stable R c1 -> stable R c2 -> stable R (if b then c1 else c2).
Proof. destruct b; auto. Qed.

Lemma stable_for_loop (n : nat) (i : Z) (body : Z -> M St unit) :
  (forall j, stable R (body j)) -> stable R (for_loop n i body).
Proof.
  intros Hb. revert i. induction n as [|n IH]; intros i; simpl.
  - apply stable_ret.
  - apply stable_bind; auto.
Qed.

Lemma stable_emit `{Logging St} (e : Event.t) :
  (forall s l, R s (set_log l s)) -> stable R (emit e).
Proof. intros Hl. apply stable_modify. intros s. apply Hl. Qed.

(** A call as a transaction respects the relation as well: a reverted call
    leaves the state as it was. *)
Lemma stable_transact {A} (c : M St A) (s : St) :
  stable R c -> R s (snd (transact c s)).
Proof.
  intros Hc. unfold transact. destruct (c s) as [[a s']|e] eqn:E; simpl.
  - eapply Hc; eassumption.
  - reflexivity.
Qed.
End Stable.

(** Breaks a computation down along its structure; what is left are the
    assignments, to be shown to respect the relation. *)
Ltac stable_step :=
  first
    [ apply stable_ret; tc_solve
    | apply stable_revert
    | apply stable_gets; tc_solve
    | apply stable_require; tc_solve
    | apply stable_lift; tc_solve
    | apply stable_bind; [tc_solve | | intros ?]
    | apply stable_if
    | apply stable_for_loop; [tc_solve | tc_solve | intros ?]
    | apply stable_modify; intros ?
    | apply stable_emit; intros ? ? ].

Ltac stable_auto := repeat stable_step.

(** ** Facts about PrivateVoting *)
Module PrivateVotingFacts.
Import PrivateVoting OZ PrivateVotingSpec.

(** Unfolds the monad and the projections of assignments, and nothing else. *)
Ltac msimpl :=
  cbv beta iota zeta delta
      [bind ret gets modify require revert lift emit
       _owner set_owner _status set_status log set_log
       State_Ownable State_ReentrancyGuard State_Logging] in *;
  cbn [owner_ status_ encryptedVoteCounts hasVoted authorizedVoters votingInfo
       decryptedResults resultsDecrypted events
       set_owner_ set_status_ set_encryptedVoteCounts set_hasVoted
       set_authorizedVoters set_votingInfo set_decryptedResults
       set_resultsDecrypted set_events
       title description options startTime endTime state totalVoters
       resultsRequested set_state set_totalVoters set_resultsRequested
       fst snd] in *.

Ltac case_if :=
  match goal with
  | |- context [if ?b then _ else _] => destruct b eqn:?
  end.

Ltac bool_to_prop :=
  repeat match goal with
  | H : _ && _ = true |- _ => apply andb_true_iff in H; destruct H
  | H : _ && _ = false |- _ => apply andb_false_iff in H; destruct H
  | H : _ || _ = true |- _ => apply orb_true_iff in H; destruct H
  | H : _ || _ = false |- _ => apply orb_false_iff in H; destruct H
  | H : negb _ = true |- _ => apply negb_true_iff in H
  | H : negb _ = false |- _ => apply negb_false_iff in H
  | H : bool_decide _ = true |- _ => apply bool_decide_eq_true in H
  | H : bool_decide _ = false |- _ => apply bool_decide_eq_false in H
  | H : (_ <=? _) = true |- _ => apply Z.leb_le in H
  | H : (_ <=? _) = false |- _ => apply Z.leb_gt in H
  | H : (_ <? _) = true |- _ => apply Z.ltb_lt in H
  | H : (_ <? _) = false |- _ => apply Z.ltb_ge in H
  end.

(** *** The modifiers as conditionals *)

Lemma onlyOwner_eq {A} env (body : M State A) s :
  onlyOwner env body s =
  if bool_decide (owner_ s = msg_sender env) then body s
  else Revert (OwnableUnauthorizedAccount (msg_sender env)).
Proof.
  unfold onlyOwner, _checkOwner. msimpl.
  destruct (bool_decide _); reflexivity.
Qed.

Lemma onlyDuringVoting_eq {A} env (body : M State A) s :
  onlyDuringVoting env body s =
  if (startTime (votingInfo s) <=? block_timestamp env) &&
     (block_timestamp env <=? endTime (votingInfo s)) &&
     bool_decide (state (votingInfo s) = Active)
  then body s else Revert (Require "Voting is not active").
Proof.
  unfold onlyDuringVoting. msimpl.
  destruct (_ && _); msimpl; [|reflexivity].
  destruct (bool_decide _); reflexivity.
Qed.

Lemma onlyAuthorizedVoter_eq {A} env (body : M State A) s :
  onlyAuthorizedVoter env body s =
  if authorized s (msg_sender env) then body s
  else Revert (Require "Not authorized to vote").
Proof. unfold onlyAuthorizedVoter. msimpl. destruct (authorized _ _); reflexivity. Qed.

Lemma hasNotVoted_eq {A} env (body : M State A) s :
  hasNotVoted env body s =
  if voted s (msg_sender env) then Revert (Require "Already voted") else body s.
Proof. unfold hasNotVoted. msimpl. destruct (voted _ _); reflexivity. Qed.

Lemma onlyAfterVoting_eq {A} env (body : M State A) s :
  onlyAfterVoting env body s =
  if (endTime (votingInfo s) <? block_timestamp env) ||
     bool_decide (state (votingInfo s) = Ended)
  then body s else Revert (Require "Voting is still active").
Proof. unfold onlyAfterVoting. msimpl. destruct (_ || _); reflexivity. Qed.

Lemma onlyGateway_eq {A} env (body : M State A) s :
  onlyGateway env body s =
  if bool_decide (msg_sender env = gatewayContractAddress env) then body s
  else Revert RequireNoData.
Proof. unfold onlyGateway. msimpl. destruct (bool_decide _); reflexivity. Qed.

Lemma nonReentrant_eq {A} (body : M State A) s :
  nonReentrant body s =
  if bool_decide (status_ s = ENTERED) then Revert ReentrancyGuardReentrantCall
  else match body (set_status_ ENTERED s) with
       | Ok (r, s') => Ok (r, set_status_ NOT_ENTERED s')
       | Revert e => Revert e
       end.
Proof.
  unfold nonReentrant, _nonReentrantBefore, _nonReentrantAfter. msimpl.
  destruct (bool_decide _); [reflexivity|].
  destruct (body _) as [[r s']|e]; reflexivity.
Qed.

(** *** Mappings *)

Lemma mapping_get_insert {V} (d : V) (m : gmap Z V) (i j : Z) (x : V) :
  mapping_get d (<[i := x]> m) j
  = if bool_decide (i = j) then x else mapping_get d m j.
Proof.
  unfold mapping_get. rewrite lookup_insert.
  case_bool_decide; case_decide; done.
Qed.

Lemma mapping_get_empty {V} (d : V) (j : Z) : mapping_get d ∅ j = d.
Proof. unfold mapping_get. by rewrite lookup_empty. Qed.

Lemma uint32_range x : 0 <= uint32 x < 2 ^ 32.
Proof. unfold uint32. apply Z.mod_pos_bound. lia. Qed.

Lemma uint32_small x : 0 <= x < 2 ^ 32 -> uint32 x = x.
Proof. intros. unfold uint32. by apply Z.mod_small. Qed.

(** *** The loops *)

Lemma set_encryptedVoteCounts_id s :
  set_encryptedVoteCounts (encryptedVoteCounts s) s = s.
Proof. destruct s; reflexivity. Qed.

Lemma set_decryptedResults_id s :
  set_decryptedResults (decryptedResults s) s = s.
Proof. destruct s; reflexivity. Qed.

Lemma vote_loop_eq vote body n i s :
  (forall i s, body i s =
     Ok (tt, set_encryptedVoteCounts
               (<[i := TFHE.add (count s i) (voteIncrement vote i)]>
                  (encryptedVoteCounts s)) s)) ->
  for_loop n i body s
  = Ok (tt, set_encryptedVoteCounts (tally vote n i (encryptedVoteCounts s)) s).
Proof.
  intros Hb. revert i s. induction n as [|n IH]; intros i s; simpl.
  - unfold ret. by rewrite set_encryptedVoteCounts_id.
  - unfold bind. rewrite Hb, IH. reflexivity.
Qed.

Lemma tally_get vote n i m j :
  mapping_get 0 (tally vote n i m) j =
  if bool_decide (i <= j < i + Z.of_nat n)
  then TFHE.add (mapping_get 0 m j) (voteIncrement vote j)
  else mapping_get 0 m j.
Proof.
  revert i m. induction n as [|n IH]; intros i m.
  - simpl. case_bool_decide; [lia|done].
  - cbn [tally]. rewrite IH. rewrite !mapping_get_insert.
    repeat case_bool_decide; try lia; subst; done.
Qed.

Lemma zero_loop_eq body n i s :
  (forall i s, body i s =
     Ok (tt, set_encryptedVoteCounts
               (<[i := TFHE.asEuint32 0]> (encryptedVoteCounts s)) s)) ->
  for_loop n i body s
  = Ok (tt, set_encryptedVoteCounts (zeroed n i (encryptedVoteCounts s)) s).
Proof.
  intros Hb. revert i s. induction n as [|n IH]; intros i s; simpl.
  - unfold ret. by rewrite set_encryptedVoteCounts_id.
  - unfold bind. rewrite Hb, IH. reflexivity.
Qed.

Lemma zeroed_get n i m j :
  mapping_get 0 (zeroed n i m) j =
  if bool_decide (i <= j < i + Z.of_nat n) then 0 else mapping_get 0 m j.
Proof.
  revert i m. induction n as [|n IH]; intros i m.
  - simpl. case_bool_decide; [lia|done].
  - cbn [zeroed]. rewrite IH. rewrite !mapping_get_insert.
    repeat case_bool_decide; try lia; subst; done.
Qed.

Lemma callbackResults_loop_eq i rest s :
  callbackResults_loop i rest s
  = Ok (tt, set_decryptedResults
              (stored i rest (options_length s) (decryptedResults s)) s).
Proof.
  revert i s. induction rest as [|x rest IH]; intros i s; simpl.
  - unfold ret. by rewrite set_decryptedResults_id.
  - msimpl. destruct (i <? options_length s); msimpl.
    + rewrite IH. reflexivity.
    + by rewrite set_decryptedResults_id.
Qed.

Lemma stored_get i rest n m j :
  mapping_get 0 (stored i rest n m) j =
  if bool_decide (i <= j < i + len rest /\ j < n)
  then uint32 (nth (Z.to_nat (j - i)) rest 0)
  else mapping_get 0 m j.
Proof.
  revert i m. induction rest as [|x rest IH]; intros i m.
  - simpl. unfold len. simpl. case_bool_decide; [lia|done].
  - cbn [stored]. unfold len in *. cbn [length].
    destruct (i <? n) eqn:Hin; bool_to_prop.
    + rewrite IH, mapping_get_insert.
      repeat case_bool_decide; try lia; subst.
      * replace (Z.to_nat (j - i)) with (S (Z.to_nat (j - (i + 1)))) by lia.
        reflexivity.
      * by rewrite Z.sub_diag.
    + case_bool_decide; [lia|done].
Qed.

(** *** Relations the calls respect *)

Lemma stable_authorizeVoters_loop (R : State -> State -> Prop)
    `{!Reflexive R} `{!Transitive R} (voters : list Z) :
  (forall s m, R s (set_authorizedVoters m s)) ->
  (forall s l, R s (set_events l s)) ->
  stable R (authorizeVoters_loop voters).
Proof.
  intros Ha He. induction voters as [|v rest IH]; simpl.
  - apply stable_ret; assumption.
  - stable_auto; auto.
Qed.

Lemma stable_callbackResults_loop (R : State -> State -> Prop)
    `{!Reflexive R} `{!Transitive R} (i : Z) (rest : list Z) :
  (forall s m, R s (set_decryptedResults m s)) ->
  stable R (callbackResults_loop i rest).
Proof.
  intros Hd. revert i. induction rest as [|x rest IH]; intros i; simpl.
  - stable_auto.
  - stable_step; [stable_auto|].
    destruct (i <? a); stable_auto; auto.
Qed.

#[local] Instance same_votingInfo_refl : Reflexive same_votingInfo.
Proof. intros s. reflexivity. Qed.
#[local] Instance same_votingInfo_trans : Transitive same_votingInfo.
Proof. unfold same_votingInfo. intros s1 s2 s3 H1 H2. congruence. Qed.
#[local] Instance same_hasVoted_refl : Reflexive same_hasVoted.
Proof. intros s. reflexivity. Qed.
#[local] Instance same_hasVoted_trans : Transitive same_hasVoted.
Proof. unfold same_hasVoted. intros s1 s2 s3 H1 H2. congruence. Qed.
#[local] Instance same_counts_refl : Reflexive same_counts.
Proof. intros s. reflexivity. Qed.
#[local] Instance same_counts_trans : Transitive same_counts.
Proof. unfold same_counts. intros s1 s2 s3 H1 H2. congruence. Qed.
#[local] Instance same_status_refl : Reflexive same_status.
Proof. intros s. reflexivity. Qed.
#[local] Instance same_status_trans : Transitive same_status.
Proof. unfold same_status. intros s1 s2 s3 H1 H2. congruence. Qed.
#[local] Instance same_results_refl : Reflexive same_results.
Proof. intros s. split; reflexivity. Qed.
#[local] Instance same_results_trans : Transitive same_results.
Proof. unfold same_results. intros s1 s2 s3 [] []. split; congruence. Qed.
#[local] Instance same_authorized_refl : Reflexive same_authorized.
Proof. intros s. reflexivity. Qed.
#[local] Instance same_authorized_trans : Transitive same_authorized.
Proof. unfold same_authorized. intros s1 s2 s3 H1 H2. congruence. Qed.
#[local] Instance same_owner_refl : Reflexive same_owner.
Proof. intros s. reflexivity. Qed.
#[local] Instance same_owner_trans : Transitive same_owner.
Proof. unfold same_owner. intros s1 s2 s3 H1 H2. congruence. Qed.

(** Opens a call down to the monad. *)
Ltac open_call :=
  unfold execute, vote, authorizeVoter, authorizeVoters, revokeVoter, endVoting,
    startVoting, requestResults, callbackResults, transferOwnership,
    renounceOwnership, onlyOwner, _checkOwner, _transferOwnership,
    onlyDuringVoting, onlyAuthorizedVoter, hasNotVoted, onlyAfterVoting,
    onlyGateway, nonReentrant, _nonReentrantBefore, _nonReentrantAfter.

(** Shows a call stable for a relation that unfolds to equations between
    projections of the two states. *)
Ltac stable_call :=
  open_call; stable_auto;
  try (apply stable_authorizeVoters_loop; try tc_solve; intros ? ?);
  try (apply stable_callbackResults_loop; try tc_solve; intros ? ?);
  try tc_solve;
  try (unfold same_votingInfo, same_hasVoted, same_counts, same_status,
         same_results, same_authorized, same_owner; cbn; auto; fail).

Lemma execute_same_hasVoted env c :
  (forall e p, c <> Vote e p) -> stable same_hasVoted (execute env c).
Proof. intros Hc. destruct c; try (by edestruct Hc); stable_call. Qed.

Lemma execute_same_counts env c :
  (forall e p, c <> Vote e p) -> stable same_counts (execute env c).
Proof. intros Hc. destruct c; try (by edestruct Hc); stable_call. Qed.

Lemma execute_same_status env c :
  (forall e p, c <> Vote e p) -> stable same_status (execute env c).
Proof. intros Hc. destruct c; try (by edestruct Hc); stable_call. Qed.

Lemma execute_same_results env c :
  (forall r d, c <> CallbackResults r d) -> stable same_results (execute env c).
Proof. intros Hc. destruct c; try (by edestruct Hc); stable_call. Qed.

Lemma execute_same_authorized env c :
  match c with
  | AuthorizeVoter _ | AuthorizeVoters _ | RevokeVoter _ => False
  | _ => True
  end -> stable same_authorized (execute env c).
Proof. intros Hc. destruct c; try done; stable_call. Qed.

Lemma execute_same_owner env c :
  match c with
  | TransferOwnership _ | RenounceOwnership => False
  | _ => True
  end -> stable same_owner (execute env c).
Proof. intros Hc. destruct c; try done; stable_call. Qed.

Lemma execute_same_votingInfo env c :
  match c with
  | AuthorizeVoter _ | AuthorizeVoters _ | RevokeVoter _
  | TransferOwnership _ | RenounceOwnership => True
  | _ => False
  end -> stable same_votingInfo (execute env c).
Proof. intros Hc. destruct c; try done; stable_call. Qed.

(** *** What each call does *)

Lemma vote_Ok_iff env e p s s' :
  vote env e p s = Ok (tt, s') <-> vote_checks env e p s /\ s' = vote_post env e s.
Proof.
  unfold vote, vote_checks.
  rewrite onlyDuringVoting_eq, onlyAuthorizedVoter_eq, hasNotVoted_eq, nonReentrant_eq.
  unfold TFHE.asEuint32_input, checked_sub, checked_add, TFHE.decrypt, TFHE.le.
  msimpl. unfold options_length.
  repeat (first [case_if
                | rewrite (vote_loop_eq (uint32 (TFHE.plaintext e))) by reflexivity];
          msimpl).
  all: bool_to_prop.
  all: try (split; [intros [=] | intros [Hc _]; exfalso;
                                 unfold TFHE.asEuint32 in *;
                                 intuition (try congruence; try lia)]; fail).
  split.
  - intros [= <-]. repeat split; assumption.
  - intros [_ ->]. reflexivity.
Qed.

(** A vote reverts with the message of the first check that fails. *)
Lemma vote_not_active env e p s :
  ~ (startTime (votingInfo s) <= block_timestamp env <= endTime (votingInfo s) /\
     state (votingInfo s) = Active) ->
  vote env e p s = Revert (Require "Voting is not active").
Proof.
  intros Hn. unfold vote. rewrite onlyDuringVoting_eq.
  case_if; [|reflexivity]. bool_to_prop. exfalso. apply Hn. repeat split; assumption.
Qed.

Lemma vote_not_authorized env e p s :
  startTime (votingInfo s) <= block_timestamp env <= endTime (votingInfo s) ->
  state (votingInfo s) = Active ->
  authorized s (msg_sender env) = false ->
  vote env e p s = Revert (Require "Not authorized to vote").
Proof.
  intros [H1 H2] Hs Ha. unfold vote.
  rewrite onlyDuringVoting_eq, onlyAuthorizedVoter_eq, Ha.
  rewrite (proj2 (Z.leb_le _ _) H1), (proj2 (Z.leb_le _ _) H2).
  rewrite bool_decide_eq_true_2 by assumption. reflexivity.
Qed.

Lemma vote_already_voted env e p s :
  startTime (votingInfo s) <= block_timestamp env <= endTime (votingInfo s) ->
  state (votingInfo s) = Active ->
  authorized s (msg_sender env) = true ->
  voted s (msg_sender env) = true ->
  vote env e p s = Revert (Require "Already voted").
Proof.
  intros [H1 H2] Hs Ha Hv. unfold vote.
  rewrite onlyDuringVoting_eq, onlyAuthorizedVoter_eq, hasNotVoted_eq, Ha, Hv.
  rewrite (proj2 (Z.leb_le _ _) H1), (proj2 (Z.leb_le _ _) H2).
  rewrite bool_decide_eq_true_2 by assumption. reflexivity.
Qed.

Lemma deploy_Ok_iff env t d o st et s :
  deploy env t d o st et = Ok s <->
  (msg_sender env <> 0 /\ 2 <= len o <= 10 /\ st < et /\ block_timestamp env < et) /\
  s = constructed env t d o st et.
Proof.
  unfold deploy, constructor, Ownable_constructor, ReentrancyGuard_constructor,
    _transferOwnership.
  msimpl.
  repeat (first [case_if | rewrite zero_loop_eq by reflexivity]; msimpl).
  all: try (split; [intros [=] | intros [Hc _]; exfalso; bool_to_prop; lia]; fail).
  all: unfold constructed, zero; msimpl; cbn [app]; rewrite insert_empty.
  all: match goal with H : (_ <=? block_timestamp _) = _ |- _ => rewrite H end.
  all: bool_to_prop.
  all: split; [intros [= <-]; split; [lia | reflexivity] | intros [_ ->]; reflexivity].
Qed.

Lemma startVoting_Ok env s s' :
  startVoting env s = Ok (tt, s') <->
  (owner_ s = msg_sender env /\ state (votingInfo s) = NotStarted /\
   startTime (votingInfo s) <= block_timestamp env) /\
  s' = set_votingInfo (set_state Active (votingInfo s)) s.
Proof.
  unfold startVoting. rewrite onlyOwner_eq. msimpl.
  repeat (case_if; msimpl); bool_to_prop.
  all: try (split; [intros [=] | intros [Hc _]; exfalso;
                                 intuition (try congruence; try lia)]; fail).
  split; [intros [= <-]; auto | intros [_ ->]; reflexivity].
Qed.

Lemma endVoting_Ok env s s' :
  endVoting env s = Ok (tt, s') <->
  (owner_ s = msg_sender env /\ state (votingInfo s) = Active) /\
  s' = set_events (events s ++ [Event.VotingEnded (block_timestamp env)])
         (set_votingInfo (set_state Ended (votingInfo s)) s).
Proof.
  unfold endVoting. rewrite onlyOwner_eq. msimpl.
  repeat (case_if; msimpl); bool_to_prop.
  all: try (split; [intros [=] | intros [Hc _]; exfalso;
                                 intuition (try congruence; try lia)]; fail).
  split; [intros [= <-]; auto | intros [_ ->]; reflexivity].
Qed.

Lemma callbackResults_eq env requestId decryptedInput s :
  callbackResults env requestId decryptedInput s =
  if bool_decide (msg_sender env = gatewayContractAddress env)
  then Ok (tt, callback_post decryptedInput s)
  else Revert RequireNoData.
Proof.
  unfold callbackResults. rewrite onlyGateway_eq. case_if; [|reflexivity].
  msimpl. rewrite callbackResults_loop_eq. reflexivity.
Qed.

Lemma requestResults_Ok env s s' :
  requestResults env s = Ok (tt, s') ->
  owner_ s = msg_sender env /\
  (endTime (votingInfo s) < block_timestamp env \/ state (votingInfo s) = Ended) /\
  resultsRequested (votingInfo s) = false /\
  votingInfo s' = set_state Ended (set_resultsRequested true (votingInfo s)).
Proof.
  unfold requestResults. rewrite onlyOwner_eq, onlyAfterVoting_eq.
  do 2 (case_if; [|discriminate]). mstep. case_if; [|discriminate].
  unfold bind at 1.
  match goal with
  | |- context [for_loop ?n ?i ?b ?s0] =>
      destruct (for_loop n i b s0) as [[[] s1]|] eqn:Hloop; [|discriminate]
  end.
  intros [= <-].
  assert (Hs : votingInfo s1
               = set_state Ended (set_resultsRequested true (votingInfo s))).
  { revert Hloop. apply (stable_for_loop same_votingInfo).
    intros j. stable_auto. reflexivity. }
  msimpl. bool_to_prop.
  all: repeat split; auto.
Qed.

Lemma requestResults_reverts env s :
  resultsRequested (votingInfo s) = true \/
  (block_timestamp env <= endTime (votingInfo s) /\ state (votingInfo s) <> Ended) ->
  exists e, requestResults env s = Revert e.
Proof.
  intros H. unfold requestResults. rewrite onlyOwner_eq, onlyAfterVoting_eq. msimpl.
  repeat (case_if; msimpl); eauto.
  exfalso. bool_to_prop; destruct H as [H|[H1 H2]]; try congruence; try lia.
Qed.

(** What a successful call does to [votingInfo]. *)
Lemma execute_votingInfo env c s a s' :
  execute env c s = Ok (a, s') ->
  match c with
  | Vote _ _ =>
      state (votingInfo s) = Active /\
      votingInfo s' = set_totalVoters (totalVoters (votingInfo s) + 1) (votingInfo s)
  | StartVoting =>
      state (votingInfo s) = NotStarted /\
      votingInfo s' = set_state Active (votingInfo s)
  | EndVoting =>
      state (votingInfo s) = Active /\
      votingInfo s' = set_state Ended (votingInfo s)
  | RequestResults =>
      resultsRequested (votingInfo s) = false /\
      (endTime (votingInfo s) < block_timestamp env \/ state (votingInfo s) = Ended) /\
      votingInfo s' = set_state Ended (set_resultsRequested true (votingInfo s))
  | CallbackResults _ _ =>
      votingInfo s' = set_state ResultsRevealed (votingInfo s)
  | _ => votingInfo s' = votingInfo s
  end.
Proof.
  intros H. destruct a.
  destruct c; try (revert H; apply execute_same_votingInfo; exact I).
  - apply vote_Ok_iff in H as [Hc ->]. split; [apply Hc | reflexivity].
  - apply endVoting_Ok in H as [[_ Hs] ->]. split; [assumption | reflexivity].
  - apply startVoting_Ok in H as [[_ [Hs _]] ->]. split; [assumption | reflexivity].
  - apply requestResults_Ok in H. tauto.
  - cbn [execute] in H. rewrite callbackResults_eq in H.
    destruct (bool_decide _); [|discriminate]. by injection H as <-.
Qed.

(** *** Reachable states *)

Lemma step_Ok env c s :
  step s (env, c) = s \/ execute env c s = Ok (tt, step s (env, c)).
Proof.
  unfold step, transact. cbn [fst snd].
  destruct (execute env c s) as [[[] s']|e]; [right|left]; reflexivity.
Qed.

Lemma count_vote_post env e s j :
  count (vote_post env e s) j =
  if bool_decide (0 <= j < options_length s)
  then TFHE.add (count s j) (voteIncrement (uint32 (TFHE.plaintext e)) j)
  else count s j.
Proof.
  unfold count, vote_post. cbn [encryptedVoteCounts]. rewrite tally_get.
  unfold options_length, len. rewrite Z.add_0_l. reflexivity.
Qed.

Lemma is_vote c : (exists e p, c = Vote e p) \/ (forall e p, c <> Vote e p).
Proof. destruct c; eauto; right; intros; discriminate. Qed.

Lemma constructed_invariant env t d o st et :
  2 <= len o <= 10 -> st < et -> invariant (constructed env t d o st et).
Proof.
  intros Ho Ht. split; try (cbn; done).
  intros i. unfold count, constructed. cbn [encryptedVoteCounts].
  rewrite zeroed_get, mapping_get_empty. case_bool_decide; lia.
Qed.

Lemma execute_invariant env c s s' :
  invariant s -> execute env c s = Ok (tt, s') -> invariant s'.
Proof.
  intros [Ho Ht Hc Hst Hv] H.
  pose proof (execute_votingInfo _ _ _ _ _ H) as Hinfo.
  destruct (is_vote c) as [(e & p & ->)|Hnv'].
  - apply vote_Ok_iff in H as [Hchk ->]. split.
    + exact Ho.
    + exact Ht.
    + intros i. rewrite count_vote_post. case_bool_decide; [|apply Hc].
      apply uint32_range.
    + reflexivity.
    + cbn. lia.
  - pose proof (execute_same_counts env c Hnv' _ _ _ H) as Hcount.
    pose proof (execute_same_status env c Hnv' _ _ _ H) as Hstatus.
    unfold same_counts, same_status in *.
    assert (Hkeep : options (votingInfo s') = options (votingInfo s) /\
                    startTime (votingInfo s') = startTime (votingInfo s) /\
                    endTime (votingInfo s') = endTime (votingInfo s) /\
                    totalVoters (votingInfo s') = totalVoters (votingInfo s)).
    { destruct c; try (by edestruct Hnv'); destruct_and?;
        match goal with H : votingInfo s' = _ |- _ => rewrite H end; done. }
    destruct Hkeep as (Ko & Ks & Ke & Kv).
    split; unfold options_length, count in *; rewrite ?Ko, ?Ks, ?Ke, ?Kv, ?Hcount;
      try assumption. congruence.
Qed.

Lemma step_invariant s ec : invariant s -> invariant (step s ec).
Proof.
  intros Hi. destruct ec as [env c].
  destruct (step_Ok env c s) as [-> | H]; [assumption|].
  eapply execute_invariant; eassumption.
Qed.

Lemma reachable_invariant gw t s : reachable gw t s -> invariant s.
Proof.
  induction 1 as [env ? ? ? ? ? s _ Hd | env c t s _ IH _ _].
  - apply deploy_Ok_iff in Hd as [(_ & Ho & Ht & _) ->].
    by apply constructed_invariant.
  - by apply step_invariant.
Qed.

Lemma run_invariant calls s : invariant s -> invariant (run calls s).
Proof.
  revert s. induction calls as [|ec calls IH]; intros s Hi; [assumption|].
  apply IH. by apply step_invariant.
Qed.

(** *** A call of [authorizeVoter] by the owner *)

Lemma authorizeVoter_succeeds env voter s :
  owner_ s = msg_sender env -> voter <> 0 ->
  step s (env, AuthorizeVoter voter)
  = set_events (events s ++ [Event.VoterAuthorized voter])
      (set_authorizedVoters (<[voter := true]> (authorizedVoters s)) s).
Proof.
  intros Ho Hv. unfold step, transact. cbn [fst snd execute].
  unfold authorizeVoter. rewrite onlyOwner_eq.
  rewrite bool_decide_eq_true_2 by assumption. mstep.
  rewrite bool_decide_eq_false_2 by assumption. reflexivity.
Qed.

(** *** What no call undoes *)

Lemma step_voted s ec a : voted s a = true -> voted (step s ec) a = true.
Proof.
  intros Hv. destruct ec as [env c].
  destruct (step_Ok env c s) as [-> | H]; [assumption|].
  destruct (is_vote c) as [(e & p & ->)|Hnv].
  - apply vote_Ok_iff in H as [_ ->]. unfold voted. cbn [vote_post hasVoted].
    rewrite mapping_get_insert. case_bool_decide; [reflexivity | exact Hv].
  - apply (execute_same_hasVoted env c Hnv) in H. unfold voted.
    by rewrite H.
Qed.

Lemma run_voted calls s a : voted s a = true -> voted (run calls s) a = true.
Proof.
  revert s. induction calls as [|ec calls IH]; intros s Hv; [assumption|].
  apply IH. by apply step_voted.
Qed.

Lemma step_resultsRequested s ec :
  resultsRequested (votingInfo s) = true ->
  resultsRequested (votingInfo (step s ec)) = true.
Proof.
  intros Hr. destruct ec as [env c].
  destruct (step_Ok env c s) as [-> | H]; [assumption|].
  apply execute_votingInfo in H.
  destruct c; destruct_and?;
    match goal with H : votingInfo _ = _ |- _ => rewrite H end; done.
Qed.

Lemma run_resultsRequested calls s :
  resultsRequested (votingInfo s) = true ->
  resultsRequested (votingInfo (run calls s)) = true.
Proof.
  revert s. induction calls as [|ec calls IH]; intros s Hv; [assumption|].
  apply IH. by apply step_resultsRequested.
Qed.

Lemma authorizeVoters_loop_other voters s s' u :
  u ∉ voters ->
  authorizeVoters_loop voters s = Ok (tt, s') ->
  authorized s' u = authorized s u.
Proof.
  revert s. induction voters as [|v rest IH]; intros s Hu.
  - by intros [= <-].
  - apply not_elem_of_cons in Hu as [Hne Hu].
    cbn [authorizeVoters_loop]. mstep. destruct (negb _); [|discriminate].
    intros Hrun. rewrite (IH _ Hu Hrun). unfold authorized. cbn.
    rewrite mapping_get_insert. by rewrite bool_decide_eq_false_2.
Qed.

Lemma step_not_authorized s env c u :
  authorized s u = false -> ~ authorizes u c ->
  authorized (step s (env, c)) u = false.
Proof.
  intros Ha Hc.
  destruct (step_Ok env c s) as [-> | H]; [assumption|].
  rewrite <- Ha.
  destruct c;
    try (match type of H with
         | execute _ ?c0 _ = _ =>
             pose proof (execute_same_authorized env c0 I _ _ _ H) as Hs
         end; unfold authorized; by rewrite Hs).
  - cbn [execute authorizes] in *. unfold authorizeVoter in H.
    rewrite onlyOwner_eq in H. destruct (bool_decide _); [|discriminate].
    revert H. mstep. destruct (negb _); [|discriminate]. intros [= <-].
    unfold authorized. cbn. rewrite mapping_get_insert.
    by rewrite bool_decide_eq_false_2.
  - cbn [execute authorizes] in *. unfold authorizeVoters in H.
    rewrite onlyOwner_eq in H. destruct (bool_decide _); [|discriminate].
    by apply authorizeVoters_loop_other with (voters := voters).
  - cbn [execute] in *. unfold revokeVoter in H.
    rewrite onlyOwner_eq in H. destruct (bool_decide _); [|discriminate].
    revert H. mstep. intros [= <-].
    unfold authorized in *. cbn. rewrite mapping_get_insert.
    case_bool_decide; [subst; by rewrite Ha | reflexivity].
Qed.

Lemma run_not_authorized calls s u :
  authorized s u = false ->
  authorized (run calls s) u = true ->
  exists ec, ec ∈ calls /\ authorizes u (snd ec).
Proof.
  revert s. induction calls as [|[env c] calls IH]; intros s Ha Hr.
  - cbn in Hr. congruence.
  - cbn [run fold_left] in Hr.
    assert (Hd : authorizes u c \/ ~ authorizes u c).
    { destruct c; cbn; try tauto.
      - destruct (decide (voter = u)); tauto.
      - destruct (decide (u ∈ voters)); tauto. }
    destruct Hd as [Hc|Hc].
    + exists (env, c). split; [apply list_elem_of_here | exact Hc].
    + destruct (IH (step s (env, c))) as (ec & Hin & Hec).
      * by apply step_not_authorized.
      * exact Hr.
      * exists ec. split; [by apply list_elem_of_further | exact Hec].
Qed.

Lemma deploy_reverts_options env t d o st et :
  msg_sender env <> 0 ->
  (len o < 2 -> deploy env t d o st et
                = Revert (Require "At least 2 options required")) /\
  (10 < len o -> deploy env t d o st et
                 = Revert (Require "Maximum 10 options allowed")).
Proof.
  intros Hs.
  unfold deploy, constructor, Ownable_constructor, ReentrancyGuard_constructor,
    _transferOwnership.
  mstep. rewrite (bool_decide_eq_false_2 _ Hs). mstep.
  split; intros Hl.
  - by rewrite (proj2 (Z.leb_gt _ _) Hl).
  - destruct (2 <=? len o) eqn:H2; [|apply Z.leb_gt in H2; lia].
    by rewrite (proj2 (Z.leb_gt _ _) Hl).
Qed.

Lemma deploy_reverts_times env t d o st et :
  msg_sender env <> 0 -> 2 <= len o <= 10 -> et <= st ->
  deploy env t d o st et = Revert (Require "Invalid time range").
Proof.
  intros Hs Ho Ht.
  unfold deploy, constructor, Ownable_constructor, ReentrancyGuard_constructor,
    _transferOwnership.
  mstep. rewrite (bool_decide_eq_false_2 _ Hs). mstep.
  rewrite (proj2 (Z.leb_le _ _) (proj1 Ho)), (proj2 (Z.leb_le _ _) (proj2 Ho)).
  by rewrite (proj2 (Z.ltb_ge _ _) Ht).
Qed.

Lemma deploy_not_Ok env t d o st et :
  (forall s, deploy env t d o st et <> Ok s) ->
  exists e, deploy env t d o st et = Revert e.
Proof. destruct (deploy _ _ _ _ _ _) as [s|e]; [intros H; by edestruct H | eauto]. Qed.
End PrivateVotingFacts.

(** ** Facts about VotingFactory *)
Module VotingFactoryFacts.
Import VotingFactory OZ VotingFactorySpec.

Lemma factory_nonReentrant_eq {A} (body : M State A) s :
  nonReentrant body s =
  if bool_decide (status_ s = ENTERED) then Revert ReentrancyGuardReentrantCall
  else match body (set_status_ ENTERED s) with
       | Ok (r, s') => Ok (r, set_status_ NOT_ENTERED s')
       | Revert e => Revert e
       end.
Proof.
  unfold nonReentrant, _nonReentrantBefore, _nonReentrantAfter.
  unfold bind, gets, modify, ret, revert.
  cbn [_status set_status State_ReentrancyGuard].
  destruct (bool_decide _); [reflexivity|].
  destruct (body _) as [[r s']|e]; reflexivity.
Qed.

Lemma transferOwnership_constructed env t d o st et :
  msg_sender env <> 0 ->
  external (transferOwnership (inner env) (msg_sender env))
    (PrivateVotingSpec.constructed (inner env) t d o st et)
  = Ok (created_voting env t d o st et).
Proof.
  intros Hs. unfold external, transferOwnership.
  rewrite PrivateVotingFacts.onlyOwner_eq.
  cbn [PrivateVoting.owner_ PrivateVotingSpec.constructed].
  rewrite bool_decide_eq_true_2 by reflexivity.
  rewrite (bool_decide_eq_false_2 _ Hs).
  reflexivity.
Qed.

Ltac fsimpl :=
  cbv beta iota zeta delta
      [bind ret gets modify require revert lift emit
       _owner set_owner _status set_status log set_log
       State_Ownable State_ReentrancyGuard State_Logging] in *;
  cbn [owner_ status_ votingContracts creatorToVotings isValidVotingContract
       events votings set_owner_ set_status_ set_votingContracts
       set_creatorToVotings set_isValidVotingContract set_events set_votings
       fst snd] in *.

Lemma createVoting_Ok env t d o st et s a s' :
  createVoting env t d o st et s = Ok (a, s') ->
  a = createdAddress env /\
  (this env <> 0 /\ msg_sender env <> 0 /\ 2 <= len o <= 10 /\ st < et /\
   block_timestamp env < et) /\
  votings s' !! a = Some (created_voting env t d o st et).
Proof.
  unfold createVoting. rewrite factory_nonReentrant_eq.
  case_bool_decide; [discriminate|].
  fsimpl.
  destruct (0 <? _); [|discriminate].
  destruct (2 <=? _); [|discriminate].
  destruct (st <? et); [|discriminate].
  destruct (PrivateVoting.deploy _ _ _ _ _ _) as [c|] eqn:Hd; [|discriminate].
  apply PrivateVotingFacts.deploy_Ok_iff in Hd as [(Hthis & Ho & Ht & Hts) ->].
  cbn [inner msg_sender block_timestamp] in Hthis, Hts.
  destruct (decide (msg_sender env = 0)) as [H0|H0].
  - unfold external, transferOwnership.
    rewrite PrivateVotingFacts.onlyOwner_eq.
    cbn [PrivateVoting.owner_ PrivateVotingSpec.constructed].
    rewrite bool_decide_eq_true_2 by reflexivity.
    fsimpl. rewrite (bool_decide_eq_true_2 _ H0). discriminate.
  - rewrite transferOwnership_constructed by assumption.
    unfold checked_sub. destruct (1 <=? _); [|discriminate].
    intros [= <- <-]. split; [reflexivity|]. split; [auto|].
    cbn. apply lookup_insert_eq.
Qed.

Lemma created_voting_step env t d o st et :
  msg_sender env <> 0 ->
  PrivateVotingSpec.step (PrivateVotingSpec.constructed (inner env) t d o st et)
    (inner env, PrivateVoting.TransferOwnership (msg_sender env))
  = created_voting env t d o st et.
Proof.
  intros Hs. pose proof (transferOwnership_constructed env t d o st et Hs) as H.
  unfold external in H. unfold PrivateVotingSpec.step, transact.
  cbn [fst snd PrivateVoting.execute].
  destruct (transferOwnership _ _ _) as [[[] s1]|]; [|discriminate].
  cbn. congruence.
Qed.

Lemma created_voting_reachable env t d o st et :
  this env <> 0 -> msg_sender env <> 0 -> 2 <= len o <= 10 -> st < et ->
  block_timestamp env < et ->
  PrivateVotingSpec.reachable (gatewayContractAddress env) (block_timestamp env)
    (created_voting env t d o st et).
Proof.
  intros Hthis Hs Ho Ht Hts. rewrite <- created_voting_step by assumption.
  apply (PrivateVotingSpec.reachable_step _ (inner env) _ (block_timestamp env));
    [|reflexivity|cbn; lia].
  apply (PrivateVotingSpec.reachable_deploy _ (inner env) t d o st et);
    [reflexivity|].
  apply PrivateVotingFacts.deploy_Ok_iff. split; [|reflexivity]. cbn. auto.
Qed.

Lemma createVoting_not_Ok env t d o st et s :
  (forall a s', createVoting env t d o st et s <> Ok (a, s')) ->
  exists e, createVoting env t d o st et s = Revert e.
Proof.
  destruct (createVoting _ _ _ _ _ _ _) as [[a s']|e];
    [intros H; by edestruct H | eauto].
Qed.
End VotingFactoryFacts.

(** ** The tests of the repository, on the embedding

    The cases of [test/PrivateVoting.test.js] that do not need a real
    ciphertext, evaluated on the model. *)
Module RepositoryTests.
Import PrivateVoting PrivateVotingSpec VotingFactorySpec.

(** "Should set the correct voting information" *)
Example test_deployment :
  VotingFactory.votings factory_after !! 701 = Some test_voting /\
  totalVoters (votingInfo test_voting) = 0 /\
  resultsRequested (votingInfo test_voting) = false /\
  state (votingInfo test_voting) = NotStarted.
Proof. vm_compute. repeat split. Qed.

(** "Should authorize the owner as a voter" expects [true] here: on the
    code, the constructor has authorized the factory, not the creator. *)
Example test_owner_is_voter :
  owner_ test_voting = 5 /\ authorized test_voting 5 = false /\
  authorized test_voting 700 = true.
Proof. vm_compute. repeat split. Qed.

(** "Should not allow non-owner to authorize voters" *)
Example test_authorize_not_owner :
  fst (transact (execute (test_env 6 6) (AuthorizeVoter 7)) test_voting)
  = Revert (OwnableUnauthorizedAccount 6).
Proof. vm_compute. reflexivity. Qed.

(** "Should not allow authorizing zero address" *)
Example test_authorize_zero :
  fst (transact (execute (test_env 5 6) (AuthorizeVoter 0)) test_voting)
  = Revert (Require "Invalid address").
Proof. vm_compute. reflexivity. Qed.

(** "Should allow owner to revoke voter authorization" *)
Example test_revoke :
  authorized (run [(test_env 5 6, AuthorizeVoter 7)] test_voting) 7 = true /\
  authorized (run [(test_env 5 6, AuthorizeVoter 7); (test_env 5 7, RevokeVoter 7)]
                test_voting) 7 = false.
Proof. vm_compute. repeat split. Qed.

(** "Should not allow starting voting before start time" *)
Example test_start_early :
  fst (transact (execute (test_env 5 6) StartVoting) test_voting)
  = Revert (Require "Start time not reached").
Proof. vm_compute. reflexivity. Qed.

(** "Should allow owner to end voting manually" *)
Example test_end :
  state (votingInfo (run [(test_env 5 10, StartVoting); (test_env 5 11, EndVoting)]
                       test_voting)) = Ended.
Proof. vm_compute. reflexivity. Qed.

(** "Should not allow unauthorized voters to vote" *)
Example test_vote_unauthorized :
  fst (transact (execute (test_env 8 11) (Vote (ballot 0) []))
         (run [(test_env 5 10, StartVoting)] test_voting))
  = Revert (Require "Not authorized to vote").
Proof. vm_compute. reflexivity. Qed.

(** "Should not allow voting when voting is not active" *)
Example test_vote_after_end :
  fst (transact (execute (test_env 7 12) (Vote (ballot 0) []))
         (run [(test_env 5 6, AuthorizeVoter 7); (test_env 5 10, StartVoting);
               (test_env 5 11, EndVoting)] test_voting))
  = Revert (Require "Voting is not active").
Proof. vm_compute. reflexivity. Qed.

(** "Should not allow requesting results before voting ends" *)
Example test_request_early :
  fst (transact (execute (test_env 5 11) RequestResults)
         (run [(test_env 5 10, StartVoting)] test_voting))
  = Revert (Require "Voting is still active").
Proof. vm_compute. reflexivity. Qed.

(** "Should not allow requesting results twice" *)
Example test_request_twice :
  fst (transact (execute (test_env 5 102) RequestResults)
         (run [(test_env 5 101, RequestResults)] test_voting))
  = Revert (Require "Results already requested").
Proof. vm_compute. reflexivity. Qed.

(** "Should reject voting creation with insufficient options" *)
Example test_create_one_option :
  fst (transact (VotingFactory.createVoting creator_env "Poll" "Demo" ["A"] 10 100)
         factory)
  = Revert (Require "At least 2 options required").
Proof. vm_compute. reflexivity. Qed.

(** "Should reject voting creation with too many options": the revert of
    the constructor comes up through the factory. *)
Example test_create_eleven_options :
  fst (transact (VotingFactory.createVoting creator_env "Poll" "Demo"
                   ["1"; "2"; "3"; "4"; "5"; "6"; "7"; "8"; "9"; "10"; "11"] 10 100)
         factory)
  = Revert (Require "Maximum 10 options allowed").
Proof. vm_compute. reflexivity. Qed.

(** "Should reject voting creation with invalid time range" *)
Example test_create_invalid_times :
  fst (transact (VotingFactory.createVoting creator_env "Poll" "Demo" ["A"; "B"] 100 10)
         factory)
  = Revert (Require "Invalid time range").
Proof. vm_compute. reflexivity. Qed.
End RepositoryTests.

(** * The properties of the specification *)

Import PrivateVoting OZ PrivateVotingSpec PrivateVotingFacts.

(** ** Tallying *)

Lemma poll_open_reachable : reachable 900 10 poll_open.
Proof.
  apply (reachable_step 900 (call_env 1 10) StartVoting 5); [|reflexivity|cbn; lia].
  apply (reachable_deploy 900 (call_env 1 5) "Poll" "Demo" ["A"; "B"; "C"] 10 100);
    [reflexivity|].
  apply deploy_Ok_iff. split; [|reflexivity]. cbn. unfold len. cbn. lia.
Qed.

(** What a successful vote does to the counts: the count of the option
    voted for becomes its successor modulo 2^32, the others stay. *)
Lemma vote_tally gw t s env e p s' :
  reachable gw t s ->
  vote env e p s = Ok (tt, s') ->
  0 <= TFHE.plaintext e <= options_length s - 1 ->
  count s' (TFHE.plaintext e) = (count s (TFHE.plaintext e) + 1) mod 2 ^ 32 /\
  (forall j, j <> TFHE.plaintext e -> count s' j = count s j) /\
  totalVoters (votingInfo s') = totalVoters (votingInfo s) + 1.
Proof.
  intros Hr Hv Hrange. apply reachable_invariant in Hr as [Ho _ Hc _ _].
  apply vote_Ok_iff in Hv as [_ ->].
  set (v := TFHE.plaintext e) in *.
  assert (Hv : uint32 v = v) by (apply uint32_small; lia).
  assert (Hinc : forall j, 0 <= j < options_length s ->
            voteIncrement (uint32 v) j = if bool_decide (j = v) then 1 else 0).
  { intros j Hj. unfold voteIncrement, TFHE.select, TFHE.eq, TFHE.asEuint32.
    rewrite Hv, !(uint32_small j) by lia.
    case_bool_decide; [subst; by rewrite Z.eqb_refl|].
    by rewrite (proj2 (Z.eqb_neq v j)). }
  repeat split.
  - rewrite count_vote_post, bool_decide_eq_true_2 by lia.
    rewrite Hinc by lia. by rewrite bool_decide_eq_true_2.
  - intros j Hj. rewrite count_vote_post. case_bool_decide; [|reflexivity].
    rewrite Hinc by assumption. rewrite bool_decide_eq_false_2 by assumption.
    unfold TFHE.add. rewrite Z.add_0_r. apply uint32_small, Hc.
Qed.

(** ** One vote per address *)

(** C2, as amended: a successful [vote] by [a] sets [hasVoted[a]] to true;
    it remains true after any further calls, and every later call of [vote]
    from [a] reverts with the message of the first check that fails, in the
    order the modifiers run: with "Voting is not active" when the call is
    outside the time window or the state is not Active; otherwise with
    "Not authorized to vote" when [a] is no longer authorized; and
    otherwise with "Already voted". *)
Theorem vote_at_most_once env e p s s' :
  vote env e p s = Ok (tt, s') ->
  voted s' (msg_sender env) = true /\
  forall calls env' e' p',
    msg_sender env' = msg_sender env ->
    voted (run calls s') (msg_sender env) = true /\
    (~ (startTime (votingInfo (run calls s')) <= block_timestamp env'
          <= endTime (votingInfo (run calls s')) /\
        state (votingInfo (run calls s')) = Active) ->
     vote env' e' p' (run calls s') = Revert (Require "Voting is not active")) /\
    (startTime (votingInfo (run calls s')) <= block_timestamp env'
       <= endTime (votingInfo (run calls s')) ->
     state (votingInfo (run calls s')) = Active ->
     authorized (run calls s') (msg_sender env) = false ->
     vote env' e' p' (run calls s') = Revert (Require "Not authorized to vote")) /\
    (startTime (votingInfo (run calls s')) <= block_timestamp env'
       <= endTime (votingInfo (run calls s')) ->
     state (votingInfo (run calls s')) = Active ->
     authorized (run calls s') (msg_sender env) = true ->
     vote env' e' p' (run calls s') = Revert (Require "Already voted")).
Proof.
  intros Hv.
  assert (Hvoted : voted s' (msg_sender env) = true).
  { apply vote_Ok_iff in Hv as [_ ->]. unfold voted. cbn [vote_post hasVoted].
    rewrite mapping_get_insert. by rewrite bool_decide_eq_true_2. }
  split; [exact Hvoted|].
  intros calls env' e' p' Hsender.
  pose proof (run_voted calls s' _ Hvoted) as Hlater.
  set (s2 := run calls s') in *.
  split; [exact Hlater|]. split; [|split].
  - apply vote_not_active.
  - intros Hw Ha Hauth. apply vote_not_authorized; try assumption.
    by rewrite Hsender.
  - intros Hw Ha Hauth. apply vote_already_voted; try assumption;
      by rewrite Hsender.
Qed.

Lemma vote_at_most_once_witness :
  voted poll_voted 1 = true /\
  vote (call_env 1 12) (ballot 0) [] poll_voted = Revert (Require "Already voted") /\
  vote (call_env 1 13) (ballot 0) [] (run [(call_env 1 12, EndVoting)] poll_voted)
  = Revert (Require "Voting is not active") /\
  vote (call_env 1 13) (ballot 0) [] (run [(call_env 1 12, RevokeVoter 1)] poll_voted)
  = Revert (Require "Not authorized to vote").
Proof.
  pose proof (vote_at_most_once (call_env 1 11) (ballot 2) [] poll_open poll_voted)
    as H.
  destruct H as [Hvoted Hlater]; [vm_compute; reflexivity|].
  split; [exact Hvoted|]. split; [|split].
  - destruct (Hlater [] (call_env 1 12) (ballot 0) [] eq_refl) as (_ & _ & _ & Hmsg).
    apply Hmsg.
    + vm_compute. split; discriminate.
    + reflexivity.
    + vm_compute. reflexivity.
  - destruct (Hlater [(call_env 1 12, EndVoting)] (call_env 1 13) (ballot 0) []
                eq_refl) as (_ & Hmsg & _).
    apply Hmsg. intros [_ Hs]. vm_compute in Hs. discriminate.
  - destruct (Hlater [(call_env 1 12, RevokeVoter 1)] (call_env 1 13) (ballot 0) []
                eq_refl) as (_ & _ & Hmsg & _).
    apply Hmsg.
    + vm_compute. split; discriminate.
    + reflexivity.
    + vm_compute. reflexivity.
Defined.

(** C2 as stated fails: address 1 has voted, the owner ends the voting, and
    the next vote of address 1 reverts with "Voting is not active", not with
    "Already voted". *)
Lemma revote_after_end_is_not_active :
  vote (call_env 1 11) (ballot 2) [] poll_open = Ok (tt, poll_voted) /\
  voted (step poll_voted (call_env 1 12, EndVoting)) 1 = true /\
  vote (call_env 1 13) (ballot 0) [] (step poll_voted (call_env 1 12, EndVoting))
  = Revert (Require "Voting is not active") /\
  vote (call_env 1 13) (ballot 0) [] (step poll_voted (call_env 1 12, EndVoting))
  <> Revert (Require "Already voted").
Proof.
  repeat split; try (vm_compute; reflexivity).
  vm_compute. discriminate.
Qed.

(** ** Requesting the results *)

(** C3: [requestResults] reverts if [votingInfo.resultsRequested] is already
    true, or if [block.timestamp <= votingInfo.endTime] and
    [votingInfo.state] is not Ended; on success it sets [resultsRequested]
    to true and [state] to Ended, and after a success, whatever calls
    follow, every further [requestResults] reverts: it succeeds at most
    once. *)
Theorem requestResults_once_after_end env s :
  (resultsRequested (votingInfo s) = true \/
   (block_timestamp env <= endTime (votingInfo s) /\
    state (votingInfo s) <> Ended) ->
   exists e, requestResults env s = Revert e) /\
  (forall s', requestResults env s = Ok (tt, s') ->
     resultsRequested (votingInfo s') = true /\
     state (votingInfo s') = Ended /\
     (endTime (votingInfo s) < block_timestamp env \/
      state (votingInfo s) = Ended) /\
     forall calls env', exists e, requestResults env' (run calls s') = Revert e).
Proof.
  split; [apply requestResults_reverts|].
  intros s' H. apply requestResults_Ok in H as (_ & Hafter & _ & Hinfo).
  assert (Hreq : resultsRequested (votingInfo s') = true) by by rewrite Hinfo.
  repeat split; try assumption.
  - by rewrite Hinfo.
  - intros calls env'. apply requestResults_reverts. left.
    by apply run_resultsRequested.
Qed.

Lemma requestResults_once_after_end_witness :
  (exists e, requestResults (call_env 1 50) poll_open = Revert e) /\
  resultsRequested (votingInfo (step poll_open (call_env 1 101, RequestResults))) = true /\
  state (votingInfo (step poll_open (call_env 1 101, RequestResults))) = Ended /\
  exists e, requestResults (call_env 1 102)
              (step poll_open (call_env 1 101, RequestResults)) = Revert e.
Proof.
  split.
  - apply (proj1 (requestResults_once_after_end (call_env 1 50) poll_open)).
    right. vm_compute. split; discriminate.
  - destruct (proj2 (requestResults_once_after_end (call_env 1 101) poll_open)
                (step poll_open (call_env 1 101, RequestResults)))
      as (Hreq & Hst & _ & Honce); [vm_compute; reflexivity|].
    split; [exact Hreq|]. split; [exact Hst|].
    exact (Honce [] (call_env 1 102)).
Defined.

(** ** The order of the states *)

(** With any calls at all, one transition goes back: [requestResults] in
    state ResultsRevealed, which needs results that were never requested. *)
Lemma state_moves_forward_or_rerequested env c s :
  rank (state (votingInfo s)) <= rank (state (votingInfo (step s (env, c)))) \/
  (c = RequestResults /\
   state (votingInfo s) = ResultsRevealed /\
   resultsRequested (votingInfo s) = false).
Proof.
  destruct (step_Ok env c s) as [-> | H]; [left; lia|].
  apply execute_votingInfo in H.
  destruct c; destruct_and?;
    try (left; match goal with H : votingInfo _ = _ |- _ => rewrite H end;
         cbn; repeat match goal with H : state _ = _ |- _ => rewrite H end;
         cbn; try lia; destruct (state (votingInfo s)); cbn; lia).
  match goal with H : votingInfo _ = _ |- _ => rewrite H end. cbn.
  destruct (state (votingInfo s)) eqn:Hs; cbn; try (left; lia).
  right. repeat split; assumption.
Qed.

(** These are states of the contract. *)
Lemma answered_reachable gw t s : answered gw t s -> reachable gw t s.
Proof.
  induction 1 as [env ? ? ? ? ? s Hg Hd | env c t s _ IH Hg Ht _].
  - by eapply reachable_deploy.
  - by apply (reachable_step gw env c t).
Qed.

(** When the gateway answers requests, results are revealed only after
    they were requested. *)
Lemma answered_revealed gw t s :
  answered gw t s ->
  state (votingInfo s) = ResultsRevealed ->
  resultsRequested (votingInfo s) = true.
Proof.
  intros Hr. induction Hr as [env ? ? ? ? ? s _ Hd | env c t s Hr IH _ _ Hans].
  - apply deploy_Ok_iff in Hd as [_ ->]. cbn. by destruct (_ <=? _).
  - destruct (step_Ok env c s) as [-> | H]; [assumption|].
    pose proof H as Hinfo. apply execute_votingInfo in Hinfo.
    destruct c; destruct_and?;
      try (match goal with H : votingInfo _ = _ |- _ => rewrite H end;
           cbn; first [assumption | discriminate | congruence]).
    cbn [execute] in H. rewrite callbackResults_eq in H.
    destruct (bool_decide _) eqn:Hg; [|discriminate].
    apply bool_decide_eq_true in Hg. rewrite Hinfo. cbn. intros _. by apply Hans.
Qed.

(** C4: the stored [votingInfo.state] only moves forward along the order
    NotStarted < Active < Ended < ResultsRevealed: in every state the
    contract reaches from its constructor, the gateway calling back only in
    answer to requests, and for every call ([startVoting], [endVoting],
    [requestResults], [callbackResults], [vote] and all others, from any
    sender at any time), the state after the call is never an earlier enum
    value than the state before it. *)
Theorem state_only_moves_forward gw t s env c :
  answered gw t s ->
  rank (state (votingInfo s)) <= rank (state (votingInfo (step s (env, c)))).
Proof.
  intros Hr.
  destruct (state_moves_forward_or_rerequested env c s) as [H | (_ & Hs & Hq)];
    [exact H|].
  apply (answered_revealed _ _ _ Hr) in Hs. congruence.
Qed.

Lemma poll_answered_answered : answered 900 102 poll_answered.
Proof.
  apply (answered_step 900 (call_env 900 102) _ 101);
    [|reflexivity|cbn; lia|intros _; vm_compute; reflexivity].
  apply (answered_step 900 (call_env 1 101) RequestResults 11);
    [|reflexivity|cbn; lia|exact I].
  apply (answered_step 900 (call_env 1 11) (Vote (ballot 2) []) 10);
    [|reflexivity|cbn; lia|exact I].
  apply (answered_step 900 (call_env 1 10) StartVoting 5);
    [|reflexivity|cbn; lia|exact I].
  apply (answered_deploy 900 (call_env 1 5) "Poll" "Demo" ["A"; "B"; "C"] 10 100);
    [reflexivity|].
  apply deploy_Ok_iff. split; [|reflexivity]. cbn. unfold len. cbn. lia.
Qed.

Lemma state_only_moves_forward_witness :
  state (votingInfo poll_answered) = ResultsRevealed /\
  rank (state (votingInfo poll_answered))
  <= rank (state (votingInfo (step poll_answered (call_env 1 103, RequestResults)))).
Proof.
  split; [vm_compute; reflexivity|].
  apply (state_only_moves_forward 900 102 poll_answered (call_env 1 103)
           RequestResults poll_answered_answered).
Defined.

(** ** The checks of a vote *)

(** C7: [vote] reverts with a require message whenever the caller is not an
    authorized voter, or the call is outside the time window
    ([block.timestamp < startTime] or [block.timestamp > endTime]), or
    [votingInfo.state] is not Active; when it succeeds, all these checks
    have passed, and so have the not-yet-voted and the valid-option
    checks. *)
Theorem vote_requires_checks env e p s :
  (authorized s (msg_sender env) = false \/
   block_timestamp env < startTime (votingInfo s) \/
   endTime (votingInfo s) < block_timestamp env \/
   state (votingInfo s) <> Active ->
   exists msg, vote env e p s = Revert (Require msg) /\
               (msg = "Voting is not active" \/ msg = "Not authorized to vote")) /\
  (forall s', vote env e p s = Ok (tt, s') ->
     authorized s (msg_sender env) = true /\
     startTime (votingInfo s) <= block_timestamp env <= endTime (votingInfo s) /\
     state (votingInfo s) = Active /\
     voted s (msg_sender env) = false /\
     TFHE.le (uint32 (TFHE.plaintext e))
       (TFHE.asEuint32 (uint32 (options_length s - 1))) = true).
Proof.
  split.
  - intros H.
    destruct (decide (startTime (votingInfo s) <= block_timestamp env
                        <= endTime (votingInfo s) /\
                      state (votingInfo s) = Active)) as [[Hw Ha]|Hn].
    + destruct H as [H|[H|[H|H]]]; try lia; try contradiction.
      exists "Not authorized to vote". split; [|auto]. by apply vote_not_authorized.
    + exists "Voting is not active". split; [|auto]. by apply vote_not_active.
  - intros s' H. apply vote_Ok_iff in H as [(Hw & Hs & Ha & Hv & _ & _ & _ & Hle & _) _].
    repeat split; try assumption; try apply Hw. by apply Z.leb_le.
Qed.

Lemma vote_requires_checks_witness :
  (exists msg, vote (call_env 2 11) (ballot 0) [] poll_open = Revert (Require msg)) /\
  authorized poll_open 1 = true /\ voted poll_open 1 = false.
Proof.
  split.
  - destruct (proj1 (vote_requires_checks (call_env 2 11) (ballot 0) [] poll_open))
      as (msg & Hmsg & _); [left; vm_compute; reflexivity|].
    exists msg. exact Hmsg.
  - destruct (proj2 (vote_requires_checks (call_env 1 11) (ballot 2) [] poll_open)
                poll_voted) as (Ha & _ & _ & Hv & _); [vm_compute; reflexivity|].
    split; [exact Ha | exact Hv].
Defined.

(** ** The callback of the gateway *)

(** C9: [callbackResults], when called by the gateway, succeeds from any
    state (nothing is required of [resultsRequested], of the state or of
    the time), sets [resultsDecrypted] to true and [votingInfo.state] to
    ResultsRevealed, and stores, truncated to uint32, only the first
    min(decryptedInput.length, options.length) values into
    [decryptedResults]; the stored results at later indices are as
    before. *)
Theorem callbackResults_unconditional env requestId decryptedInput s :
  msg_sender env = gatewayContractAddress env ->
  exists s',
    callbackResults env requestId decryptedInput s = Ok (tt, s') /\
    resultsDecrypted s' = true /\
    state (votingInfo s') = ResultsRevealed /\
    forall j,
      result s' j =
      if bool_decide (0 <= j < Z.min (len decryptedInput) (options_length s))
      then uint32 (nth (Z.to_nat j) decryptedInput 0)
      else result s j.
Proof.
  intros Hg. exists (callback_post decryptedInput s).
  rewrite callbackResults_eq, bool_decide_eq_true_2 by assumption.
  repeat split. intros j. unfold result. cbn [callback_post decryptedResults].
  rewrite stored_get, Z.sub_0_r.
  repeat case_bool_decide; try reflexivity; lia.
Qed.

Lemma callbackResults_unconditional_witness :
  exists s',
    callbackResults (call_env 900 50) 0 [7; 8; 9; 10] poll = Ok (tt, s') /\
    resultsDecrypted s' = true /\
    state (votingInfo s') = ResultsRevealed /\
    forall j,
      result s' j =
      if bool_decide (0 <= j < Z.min (len [7; 8; 9; 10]) (options_length poll))
      then uint32 (nth (Z.to_nat j) [7; 8; 9; 10] 0)
      else result poll j.
Proof.
  apply (callbackResults_unconditional (call_env 900 50) 0 [7; 8; 9; 10] poll).
  reflexivity.
Defined.

(** ** What the constructor guarantees *)

Import VotingFactorySpec VotingFactoryFacts.

(** C5: the option count is always in [2,10]: the constructor of
    PrivateVoting reverts whenever [_options.length < 2] or
    [_options.length > 10], [VotingFactory.createVoting] never produces a
    voting contract whose option count is outside [2,10], and the count
    stays in [2,10] in every reachable state. *)
Theorem option_count_in_bounds :
  (forall env t d o st et,
     len o < 2 \/ 10 < len o -> exists e, deploy env t d o st et = Revert e) /\
  (forall env t d o st et,
     msg_sender env <> 0 ->
     (len o < 2 -> deploy env t d o st et
                   = Revert (Require "At least 2 options required")) /\
     (10 < len o -> deploy env t d o st et
                    = Revert (Require "Maximum 10 options allowed"))) /\
  (forall env t d o st et s a s',
     VotingFactory.createVoting env t d o st et s = Ok (a, s') ->
     exists pv, VotingFactory.votings s' !! a = Some pv /\
                reachable (gatewayContractAddress env) (block_timestamp env) pv /\
                2 <= options_length pv <= 10) /\
  (forall gw t s, reachable gw t s -> 2 <= options_length s <= 10).
Proof.
  repeat split.
  - intros env t d o st et Hl. apply deploy_not_Ok. intros s Hd.
    apply deploy_Ok_iff in Hd as [(_ & Ho & _) _]. lia.
  - by apply deploy_reverts_options.
  - by apply deploy_reverts_options.
  - intros env t d o st et s a s' H.
    apply createVoting_Ok in H as (-> & (Hthis & Hs & Ho & Ht & Hts) & Hpv).
    exists (created_voting env t d o st et). split; [exact Hpv|].
    assert (Hr := created_voting_reachable env t d o st et Hthis Hs Ho Ht Hts).
    split; [exact Hr|]. apply reachable_invariant in Hr. apply Hr.
  - apply reachable_invariant in H. apply H.
  - apply reachable_invariant in H. apply H.
Qed.

Lemma option_count_in_bounds_witness :
  (exists e, deploy (call_env 1 5) "Poll" "Demo" ["A"] 10 100 = Revert e) /\
  2 <= options_length poll_open <= 10.
Proof.
  destruct option_count_in_bounds as (Hrev & _ & _ & Hreach).
  split.
  - apply Hrev. left. vm_compute. reflexivity.
  - exact (Hreach 900 10 poll_open poll_open_reachable).
Defined.

(** C6: start precedes end: every successfully constructed PrivateVoting,
    directly or through [VotingFactory.createVoting], has
    [votingInfo.startTime < votingInfo.endTime], in every reachable state,
    and construction reverts when [_startTime >= _endTime]. *)
Theorem start_precedes_end :
  (forall env t d o st et,
     et <= st -> exists e, deploy env t d o st et = Revert e) /\
  (forall env t d o st et,
     msg_sender env <> 0 -> 2 <= len o <= 10 -> et <= st ->
     deploy env t d o st et = Revert (Require "Invalid time range")) /\
  (forall env t d o st et s,
     et <= st -> exists e, VotingFactory.createVoting env t d o st et s = Revert e) /\
  (forall env t d o st et s,
     deploy env t d o st et = Ok s ->
     startTime (votingInfo s) < endTime (votingInfo s)) /\
  (forall env t d o st et s a s',
     VotingFactory.createVoting env t d o st et s = Ok (a, s') ->
     exists pv, VotingFactory.votings s' !! a = Some pv /\
                startTime (votingInfo pv) < endTime (votingInfo pv)) /\
  (forall gw t s, reachable gw t s ->
     startTime (votingInfo s) < endTime (votingInfo s)).
Proof.
  repeat split.
  - intros env t d o st et Hl. apply deploy_not_Ok. intros s Hd.
    apply deploy_Ok_iff in Hd as [(_ & _ & Ht & _) _]. lia.
  - apply deploy_reverts_times.
  - intros env t d o st et s Hl. apply createVoting_not_Ok. intros a s' H.
    apply createVoting_Ok in H as (_ & (_ & _ & _ & Ht & _) & _). lia.
  - intros env t d o st et s Hd.
    apply deploy_Ok_iff in Hd as [(_ & _ & Ht & _) ->]. exact Ht.
  - intros env t d o st et s a s' H.
    apply createVoting_Ok in H as (-> & (_ & _ & _ & Ht & _) & Hpv).
    exists (created_voting env t d o st et). split; [exact Hpv | exact Ht].
  - intros gw t s H. apply reachable_invariant in H. apply H.
Qed.

Lemma start_precedes_end_witness :
  (exists e, deploy (call_env 1 5) "Poll" "Demo" ["A"; "B"] 100 100 = Revert e) /\
  startTime (votingInfo poll_open) < endTime (votingInfo poll_open).
Proof.
  destruct start_precedes_end as (Hrev & _ & _ & _ & _ & Hreach).
  split.
  - apply Hrev. lia.
  - exact (Hreach 900 10 poll_open poll_open_reachable).
Defined.

(** ** Who may vote in a created voting *)

(** C10: for every successful [VotingFactory.createVoting] by caller [u],
    the owner of the new PrivateVoting is [u], but [u] is not authorized to
    vote: [authorizedVoters] is true only for the factory address (the
    [msg.sender] of the constructor), and [authorizedVoters[u]] is false,
    and stays false until a call authorizes [u] explicitly. *)
Theorem creator_owns_but_is_not_authorized env t d o st et s a s' :
  VotingFactory.createVoting env t d o st et s = Ok (a, s') ->
  msg_sender env <> this env ->
  exists pv,
    VotingFactory.votings s' !! a = Some pv /\
    owner_ pv = msg_sender env /\
    (forall x, authorized pv x = true <-> x = this env) /\
    authorized pv (msg_sender env) = false /\
    forall calls,
      authorized (run calls pv) (msg_sender env) = true ->
      exists ec, ec ∈ calls /\ authorizes (msg_sender env) (snd ec).
Proof.
  intros H Hne.
  apply createVoting_Ok in H as (-> & _ & Hpv).
  exists (created_voting env t d o st et). split; [exact Hpv|].
  assert (Hauth : forall x, authorized (created_voting env t d o st et) x
                            = bool_decide (x = this env)).
  { intros x. unfold authorized, mapping_get, created_voting.
    cbn [authorizedVoters set_events set_owner_ constructed VotingFactory.inner
         msg_sender].
    rewrite lookup_singleton.
    case_decide; case_bool_decide; try done; congruence. }
  assert (Hu : authorized (created_voting env t d o st et) (msg_sender env) = false).
  { rewrite Hauth. by apply bool_decide_eq_false_2. }
  repeat split.
  - rewrite Hauth. apply bool_decide_eq_true.
  - intros ->. rewrite Hauth. by apply bool_decide_eq_true_2.
  - exact Hu.
  - intros calls. by apply run_not_authorized.
Qed.

Lemma creator_owns_but_is_not_authorized_witness :
  exists pv,
    VotingFactory.votings factory_after !! 701 = Some pv /\
    owner_ pv = 5 /\
    (forall x, authorized pv x = true <-> x = 700) /\
    authorized pv 5 = false /\
    forall calls,
      authorized (run calls pv) 5 = true ->
      exists ec, ec ∈ calls /\ authorizes 5 (snd ec).
Proof.
  apply (creator_owns_but_is_not_authorized creator_env "Poll" "Demo"
           ["A"; "B"; "C"] 10 100 factory 701 factory_after).
  - vm_compute. reflexivity.
  - vm_compute. discriminate.
Defined.

(** * Further properties of the contracts *)

Module PrivateVotingProperties.
Import PrivateVoting OZ PrivateVotingSpec PrivateVotingFacts PrivateVotingMore.

(** ** The tally *)

Lemma sumZ_cons (x : Z) (l : list Z) : sumZ (x :: l) = x + sumZ l.
Proof. reflexivity. Qed.

Lemma sumZ_add {A} (f g : A -> Z) (l : list A) :
  sumZ (map (fun i => f i + g i) l) = sumZ (map f l) + sumZ (map g l).
Proof.
  induction l as [|x l IH]; cbn [map]; [reflexivity|].
  rewrite !sumZ_cons, IH. lia.
Qed.

Lemma sumZ_ext {A} (f g : A -> Z) (l : list A) :
  (forall x, In x l -> f x = g x) -> sumZ (map f l) = sumZ (map g l).
Proof.
  induction l as [|x l IH]; intros H; cbn [map]; [reflexivity|].
  rewrite !sumZ_cons, H, IH; [reflexivity | intros; apply H; by right | by left].
Qed.

Lemma sumZ_indicator (v : Z) (a n : nat) :
  sumZ (map (fun i => if bool_decide (Z.of_nat i = v) then 1 else 0) (seq a n))
  = if bool_decide (Z.of_nat a <= v < Z.of_nat a + Z.of_nat n) then 1 else 0.
Proof.
  revert a. induction n as [|n IH]; intros a; cbn [seq map].
  - cbn. case_bool_decide; [lia | reflexivity].
  - rewrite sumZ_cons, IH. repeat case_bool_decide; lia.
Qed.

Lemma sumZ_nonneg {A} (f : A -> Z) (l : list A) :
  (forall y, In y l -> 0 <= f y) -> 0 <= sumZ (map f l).
Proof.
  induction l as [|y l IH]; intros Hpos; cbn [map]; [cbn; lia|].
  rewrite sumZ_cons. pose proof (Hpos y (or_introl eq_refl)).
  assert (0 <= sumZ (map f l)); [|lia].
  apply IH. intros; apply Hpos; by right.
Qed.

Lemma sumZ_bound {A} (f : A -> Z) (l : list A) x :
  (forall y, In y l -> 0 <= f y) -> In x l -> f x <= sumZ (map f l).
Proof.
  induction l as [|y l IH]; intros Hpos Hin; [destruct Hin|].
  cbn [map]. rewrite sumZ_cons.
  pose proof (Hpos y (or_introl eq_refl)).
  assert (0 <= sumZ (map f l)) by (apply sumZ_nonneg; intros; apply Hpos; by right).
  destruct Hin as [->|Hin]; [lia|].
  assert (f x <= sumZ (map f l)) by (apply IH; [intros; apply Hpos; by right | done]).
  lia.
Qed.

Lemma tally_exact_vote env e p s :
  invariant s -> tally_exact s -> vote_checks env e p s ->
  tally_exact (vote_post env e s).
Proof.
  intros [Ho _ Hc _ Hv] Hex Hchk Hsmall.
  cbn [vote_post votingInfo set_totalVoters totalVoters] in Hsmall |- *.
  assert (Hsum : tally_sum s = totalVoters (votingInfo s)) by (apply Hex; lia).
  destruct Hchk as (_ & _ & _ & _ & _ & _ & _ & Hle & _).
  unfold options_length, len in *.
  set (n := length (options (votingInfo s))) in *.
  set (v := uint32 (TFHE.plaintext e)) in *.
  assert (Hmax : TFHE.asEuint32 (uint32 (Z.of_nat n - 1)) = Z.of_nat n - 1).
  { unfold TFHE.asEuint32. by rewrite !(uint32_small (Z.of_nat n - 1)) by lia. }
  rewrite Hmax in Hle.
  assert (Hv0 : 0 <= v) by apply uint32_range.
  assert (Hinc : forall j, (j < n)%nat ->
            voteIncrement v (Z.of_nat j) = if bool_decide (Z.of_nat j = v) then 1 else 0).
  { intros j Hj. unfold voteIncrement, TFHE.select, TFHE.eq, TFHE.asEuint32.
    rewrite !(uint32_small (Z.of_nat j)) by lia.
    case_bool_decide as Hjv; [rewrite Hjv; by rewrite Z.eqb_refl|].
    by rewrite (proj2 (Z.eqb_neq v (Z.of_nat j))). }
  assert (Hcv : count s v <= totalVoters (votingInfo s)).
  { rewrite <- Hsum. unfold tally_sum. fold n.
    replace v with (Z.of_nat (Z.to_nat v)) at 1 by lia.
    apply (sumZ_bound (fun i => count s (Z.of_nat i))).
    - intros; apply Hc.
    - apply in_seq. lia. }
  unfold tally_sum. cbn [vote_post votingInfo set_totalVoters options]. fold n.
  rewrite (sumZ_ext _ (fun i => count s (Z.of_nat i)
                                + (if bool_decide (Z.of_nat i = v) then 1 else 0))).
  - rewrite sumZ_add, sumZ_indicator.
    rewrite bool_decide_eq_true_2 by lia. f_equal. exact Hsum.
  - intros i Hi. apply in_seq in Hi.
    change (count (vote_post env e s) (Z.of_nat i)
            = count s (Z.of_nat i) + (if bool_decide (Z.of_nat i = v) then 1 else 0)).
    rewrite count_vote_post. unfold options_length, len. fold n.
    rewrite bool_decide_eq_true_2 by lia. fold v. rewrite Hinc by lia.
    unfold TFHE.add. apply uint32_small.
    specialize (Hc (Z.of_nat i)). case_bool_decide as Hiv; [|lia].
    rewrite Hiv in *. lia.
Qed.

Lemma constructed_ledger env t d o st et :
  ledger (constructed env t d o st et).
Proof.
  split.
  - intros _. unfold tally_sum. cbn [constructed votingInfo options totalVoters].
    rewrite (sumZ_ext _ (fun _ => 0)).
    + induction (seq 0 (length o)) as [|x l IH]; [reflexivity|].
      cbn [map]. rewrite sumZ_cons, IH. reflexivity.
    + intros i Hi. apply in_seq in Hi. unfold count.
      cbn [constructed encryptedVoteCounts]. rewrite zeroed_get, mapping_get_empty.
      by case_bool_decide.
  - intros a b. cbn [constructed hasVoted]. by rewrite lookup_empty.
  - reflexivity.
  - reflexivity.
  - cbn. by destruct (st <=? block_timestamp env).
Qed.

Lemma execute_ledger env c s s' :
  invariant s -> ledger s -> execute env c s = Ok (tt, s') -> ledger s'.
Proof.
  intros Hinv [Ht Htrue Hsize Hres Hrev] H.
  destruct (is_vote c) as [(e & p & ->)|Hnv].
  - apply vote_Ok_iff in H as [Hchk ->]. split.
    + by apply (tally_exact_vote env e p).
    + intros a b. cbn [vote_post hasVoted]. rewrite lookup_insert.
      case_decide; [by intros [= <-] | apply Htrue].
    + cbn [vote_post hasVoted votingInfo set_totalVoters totalVoters].
      rewrite map_size_insert_None; [lia|].
      destruct Hchk as (_ & _ & _ & Hnot & _). unfold voted, mapping_get in Hnot.
      destruct (hasVoted s !! msg_sender env) as [b|] eqn:Hb; [|reflexivity].
      rewrite (Htrue _ _ Hb) in Hnot. discriminate.
    + exact Hres.
    + cbn [vote_post votingInfo set_totalVoters state resultsDecrypted].
      destruct Hchk as (_ & Hact & _). rewrite Hact. discriminate.
  - pose proof (execute_votingInfo _ _ _ _ _ H) as Hinfo.
    pose proof (execute_same_counts env c Hnv _ _ _ H) as Hcount.
    pose proof (execute_same_hasVoted env c Hnv _ _ _ H) as Hvoted.
    unfold same_counts, same_hasVoted in *.
    assert (Hkeep : options (votingInfo s') = options (votingInfo s) /\
                    totalVoters (votingInfo s') = totalVoters (votingInfo s)).
    { destruct c; try (by edestruct Hnv); destruct_and?;
        match goal with H : votingInfo s' = _ |- _ => rewrite H end; done. }
    destruct Hkeep as (Ko & Kv).
    assert (Hr : (forall r d, c <> CallbackResults r d) \/
                 (exists r d, c = CallbackResults r d)).
    { destruct c; eauto; left; intros; discriminate. }
    split.
    + unfold tally_exact, tally_sum, count. rewrite Ko, Kv, Hcount. exact Ht.
    + rewrite Hvoted. exact Htrue.
    + rewrite Hvoted, Kv. exact Hsize.
    + destruct Hr as [Hr|(r & d & ->)].
      * destruct (execute_same_results env c Hr _ _ _ H) as [-> ->]. exact Hres.
      * cbn [execute] in H. rewrite callbackResults_eq in H.
        destruct (bool_decide _); [|discriminate]. injection H as <-.
        cbn. discriminate.
    + destruct Hr as [Hr|(r & d & ->)].
      * destruct (execute_same_results env c Hr _ _ _ H) as [_ ->].
        intros Hs'. apply Hrev.
        destruct c; try (by edestruct Hnv); try (by edestruct Hr); destruct_and?;
          match goal with H : votingInfo s' = _ |- _ => rewrite H in Hs' end;
          try done; cbn in Hs'; discriminate.
      * cbn [execute] in H. rewrite callbackResults_eq in H.
        destruct (bool_decide _); [|discriminate]. by injection H as <-.
Qed.

Lemma reachable_ledger gw t s : reachable gw t s -> ledger s.
Proof.
  intros Hr. induction Hr as [env ? ? ? ? ? s _ Hd | env c t s Hr IH _ _].
  - apply deploy_Ok_iff in Hd as [_ ->]. apply constructed_ledger.
  - destruct (step_Ok env c s) as [-> | H]; [assumption|].
    eapply execute_ledger; [|exact IH|exact H]. by eapply reachable_invariant.
Qed.
Lemma poll_voted_reachable : reachable 900 11 poll_voted.
Proof.
  apply (reachable_step 900 (call_env 1 11) (Vote (ballot 2) []) 10);
    [exact poll_open_reachable | reflexivity | cbn; lia].
Qed.

(** X1: in every reachable state with fewer than 2^32 votes cast, the
    encrypted counts of the options add up to [totalVoters]: every
    successful vote went to exactly one option. *)
Theorem tally_sums_to_totalVoters gw t s :
  reachable gw t s ->
  totalVoters (votingInfo s) < 2 ^ 32 ->
  tally_sum s = totalVoters (votingInfo s).
Proof. intros Hr. apply reachable_ledger in Hr. apply Hr. Qed.

Lemma tally_sums_to_totalVoters_witness :
  tally_sum poll_voted = totalVoters (votingInfo poll_voted).
Proof.
  apply (tally_sums_to_totalVoters 900 11 poll_voted poll_voted_reachable).
  vm_compute. reflexivity.
Defined.

(** X2: in every reachable state [totalVoters] is the number of addresses
    [a] with [hasVoted[a]] true. *)
Theorem totalVoters_counts_voters gw t s :
  reachable gw t s ->
  exists V : gset Z,
    (forall a, voted s a = true <-> a ∈ V) /\
    Z.of_nat (size V) = totalVoters (votingInfo s).
Proof.
  intros Hr. apply reachable_ledger in Hr as [_ Htrue Hsize _ _].
  exists (dom (hasVoted s)). split.
  - intros a. rewrite elem_of_dom. unfold voted, mapping_get. split.
    + destruct (hasVoted s !! a) eqn:E; [eauto | discriminate].
    + intros [b Hb]. rewrite Hb. cbn. by apply Htrue in Hb.
  - by rewrite size_dom.
Qed.

Lemma totalVoters_counts_voters_witness :
  exists V : gset Z,
    (forall a, voted poll_voted a = true <-> a ∈ V) /\
    Z.of_nat (size V) = totalVoters (votingInfo poll_voted).
Proof. exact (totalVoters_counts_voters 900 11 poll_voted poll_voted_reachable). Defined.

(** ** After the end *)

Lemma step_over s ec :
  over s ->
  over (step s ec) /\
  encryptedVoteCounts (step s ec) = encryptedVoteCounts s /\
  hasVoted (step s ec) = hasVoted s /\
  totalVoters (votingInfo (step s ec)) = totalVoters (votingInfo s).
Proof.
  intros Ho. destruct ec as [env c].
  destruct (step_Ok env c s) as [-> | H]; [by repeat split|].
  destruct (is_vote c) as [(e & p & ->)|Hnv].
  - apply vote_Ok_iff in H as [(_ & Hact & _) _].
    destruct Ho as [Ho|Ho]; rewrite Ho in Hact; discriminate.
  - pose proof (execute_votingInfo _ _ _ _ _ H) as Hinfo.
    pose proof (execute_same_counts env c Hnv _ _ _ H) as Hcount.
    pose proof (execute_same_hasVoted env c Hnv _ _ _ H) as Hvoted.
    unfold same_counts, same_hasVoted, over in *.
    split; [|split; [assumption|split; [assumption|]]].
    + destruct c; try (by edestruct Hnv); destruct_and?;
        try (match goal with H : votingInfo _ = _ |- _ => rewrite H end; cbn; tauto);
        destruct Ho as [Ho|Ho]; congruence.
    + destruct c; try (by edestruct Hnv); destruct_and?;
        match goal with H : votingInfo _ = _ |- _ => rewrite H end; done.
Qed.

(** X3: once the stored state is Ended or ResultsRevealed, the tally is
    final: whatever calls follow, the encrypted counts, [hasVoted] and
    [totalVoters] stay as they are, the state stays Ended or
    ResultsRevealed, and every [vote] reverts with "Voting is not
    active". *)
Theorem tally_is_final s calls :
  over s ->
  over (run calls s) /\
  encryptedVoteCounts (run calls s) = encryptedVoteCounts s /\
  hasVoted (run calls s) = hasVoted s /\
  totalVoters (votingInfo (run calls s)) = totalVoters (votingInfo s) /\
  forall env e p,
    vote env e p (run calls s) = Revert (Require "Voting is not active").
Proof.
  intros Ho.
  assert (H : over (run calls s) /\
              encryptedVoteCounts (run calls s) = encryptedVoteCounts s /\
              hasVoted (run calls s) = hasVoted s /\
              totalVoters (votingInfo (run calls s)) = totalVoters (votingInfo s)).
  { revert s Ho. induction calls as [|ec calls IH]; intros s Ho; [by repeat split|].
    destruct (step_over s ec Ho) as (Ho' & Hc & Hv & Ht).
    destruct (IH _ Ho') as (Ho2 & Hc2 & Hv2 & Ht2).
    cbn [run fold_left]. fold (run calls (step s ec)).
    repeat split; try assumption; congruence. }
  destruct H as (Ho' & Hc & Hv & Ht). repeat split; try assumption.
  intros env e p. apply vote_not_active. intros [_ Hact].
  destruct Ho' as [Ho'|Ho']; rewrite Ho' in Hact; discriminate.
Qed.

Lemma tally_is_final_witness :
  encryptedVoteCounts
    (run [(call_env 1 13, Vote (ballot 0) []); (call_env 900 14, CallbackResults 0 [5])]
       (step poll_voted (call_env 1 12, EndVoting)))
  = encryptedVoteCounts (step poll_voted (call_env 1 12, EndVoting)).
Proof.
  apply (tally_is_final (step poll_voted (call_env 1 12, EndVoting))
           [(call_env 1 13, Vote (ballot 0) []); (call_env 900 14, CallbackResults 0 [5])]).
  left. vm_compute. reflexivity.
Defined.

(** ** Administration *)

(** X4: the administrative functions ([authorizeVoter], [authorizeVoters],
    [revokeVoter], [startVoting], [endVoting], [requestResults],
    [transferOwnership], [renounceOwnership]) called by anyone but the owner
    revert with OwnableUnauthorizedAccount(caller) and change nothing. *)
Theorem only_owner_administers env c s :
  owner_only c ->
  owner_ s <> msg_sender env ->
  transact (execute env c) s
  = (Revert (OwnableUnauthorizedAccount (msg_sender env)), s).
Proof.
  intros Hc Ho. unfold transact.
  destruct c; try (by destruct Hc); cbn [execute];
    unfold authorizeVoter, authorizeVoters, revokeVoter, endVoting, startVoting,
      requestResults, transferOwnership, renounceOwnership;
    rewrite onlyOwner_eq, (bool_decide_eq_false_2 _ Ho); reflexivity.
Qed.

Lemma only_owner_administers_witness :
  transact (execute (call_env 2 10) StartVoting) poll
  = (Revert (OwnableUnauthorizedAccount 2), poll).
Proof.
  apply (only_owner_administers (call_env 2 10) StartVoting poll).
  - exact I.
  - vm_compute. discriminate.
Defined.

Lemma authorizeVoters_loop_each env voters s :
  owner_ s = msg_sender env ->
  Forall (fun v => v <> 0) voters ->
  authorizeVoters_loop voters s = Ok (tt, run (authorize_each env voters) s).
Proof.
  intros Ho Hv. revert s Ho. induction Hv as [|v rest Hv0 _ IH]; intros s Ho.
  - reflexivity.
  - cbn [authorizeVoters_loop authorize_each map run fold_left].
    rewrite (authorizeVoter_succeeds env v s Ho Hv0). mstep.
    rewrite bool_decide_eq_false_2 by assumption. cbn [negb].
    apply IH. exact Ho.
Qed.

Lemma authorizeVoters_loop_zero voters s :
  0 ∈ voters ->
  authorizeVoters_loop voters s = Revert (Require "Invalid address").
Proof.
  revert s. induction voters as [|v rest IH]; intros s Hin.
  - by apply elem_of_nil in Hin.
  - cbn [authorizeVoters_loop]. mstep.
    destruct (decide (v = 0)) as [->|Hv].
    + reflexivity.
    + rewrite bool_decide_eq_false_2 by assumption. cbn [negb].
      apply IH. apply elem_of_cons in Hin as [Hin|Hin]; [congruence | exact Hin].
Qed.

(** X5: for the owner, [authorizeVoters] with addresses that are all
    non-zero leaves the state that one [authorizeVoter] for each address,
    in order, leaves; if the list holds the zero address, it reverts with
    "Invalid address" and authorizes none of them. *)
Theorem authorizeVoters_is_authorizeVoter_each env voters s :
  owner_ s = msg_sender env ->
  (Forall (fun v => v <> 0) voters ->
   transact (execute env (AuthorizeVoters voters)) s
   = (Ok tt, run (authorize_each env voters) s)) /\
  (0 ∈ voters ->
   transact (execute env (AuthorizeVoters voters)) s
   = (Revert (Require "Invalid address"), s)).
Proof.
  intros Ho. unfold transact. cbn [execute]. unfold authorizeVoters.
  rewrite onlyOwner_eq, (bool_decide_eq_true_2 _ Ho). split; intros H.
  - by rewrite (authorizeVoters_loop_each env).
  - by rewrite authorizeVoters_loop_zero.
Qed.

Lemma authorizeVoters_is_authorizeVoter_each_witness :
  transact (execute (call_env 1 6) (AuthorizeVoters [2; 3])) poll
  = (Ok tt, run (authorize_each (call_env 1 6) [2; 3]) poll) /\
  transact (execute (call_env 1 6) (AuthorizeVoters [2; 0; 3])) poll
  = (Revert (Require "Invalid address"), poll).
Proof.
  split.
  - apply (proj1 (authorizeVoters_is_authorizeVoter_each (call_env 1 6) [2; 3] poll
                    eq_refl)).
    repeat constructor; discriminate.
  - apply (proj2 (authorizeVoters_is_authorizeVoter_each (call_env 1 6) [2; 0; 3] poll
                    eq_refl)).
    apply list_elem_of_further, list_elem_of_here.
Defined.

(** X6: revoking a voter does not undo a vote already cast: for the owner,
    [revokeVoter] (which accepts any address) leaves the counts, [hasVoted]
    and [votingInfo] as they are, leaves every other address's
    authorization as it is, and from then on, whatever calls follow, every
    [vote] of the revoked address reverts (with "Voting is not active" or
    "Not authorized to vote") as long as no call authorizes the address
    again. *)
Theorem revokeVoter_keeps_votes env voter s :
  owner_ s = msg_sender env ->
  exists s',
    transact (execute env (RevokeVoter voter)) s = (Ok tt, s') /\
    authorized s' voter = false /\
    (forall a, a <> voter -> authorized s' a = authorized s a) /\
    encryptedVoteCounts s' = encryptedVoteCounts s /\
    hasVoted s' = hasVoted s /\
    votingInfo s' = votingInfo s /\
    forall calls env' e p,
      (forall ec, ec ∈ calls -> ~ authorizes voter (snd ec)) ->
      msg_sender env' = voter ->
      exists msg,
        vote env' e p (run calls s') = Revert (Require msg) /\
        (msg = "Voting is not active" \/ msg = "Not authorized to vote").
Proof.
  intros Ho. unfold transact. cbn [execute]. unfold revokeVoter.
  rewrite onlyOwner_eq, (bool_decide_eq_true_2 _ Ho). mstep.
  eexists. split; [reflexivity|].
  assert (Hrev : forall (s0 : State) l,
            authorized (set_events l
                          (set_authorizedVoters
                             (<[voter := false]> (authorizedVoters s0)) s0)) voter
            = false).
  { intros s0 l. unfold authorized. cbn. rewrite mapping_get_insert.
    by rewrite bool_decide_eq_true_2. }
  cbn [log set_log State_Logging].
  repeat split; try reflexivity.
  - apply Hrev.
  - intros a Ha. unfold authorized. cbn. rewrite mapping_get_insert.
    by rewrite bool_decide_eq_false_2.
  - intros calls env' e p Hnone Hs.
    match goal with |- context [run calls ?s1] => set (s' := s1) end.
    assert (Hlater : authorized (run calls s') voter = false).
    { destruct (authorized (run calls s') voter) eqn:Hauth; [|reflexivity].
      apply run_not_authorized in Hauth as (ec & Hin & Hec); [|apply Hrev].
      by apply Hnone in Hin. }
    destruct (decide (startTime (votingInfo (run calls s')) <= block_timestamp env'
                        <= endTime (votingInfo (run calls s')) /\
                      state (votingInfo (run calls s')) = Active)) as [[Hw Ha]|Hn].
    + exists "Not authorized to vote". split; [|auto].
      apply vote_not_authorized; try assumption. by rewrite Hs.
    + exists "Voting is not active". split; [|auto]. by apply vote_not_active.
Qed.

Lemma revokeVoter_keeps_votes_witness :
  exists s',
    transact (execute (call_env 1 12) (RevokeVoter 1)) poll_voted = (Ok tt, s') /\
    authorized s' 1 = false /\
    hasVoted s' = hasVoted poll_voted /\
    exists msg,
      vote (call_env 1 14) (ballot 0) [] (run [(call_env 1 13, AuthorizeVoter 2)] s')
      = Revert (Require msg).
Proof.
  destruct (revokeVoter_keeps_votes (call_env 1 12) 1 poll_voted eq_refl)
    as (s' & Hrun & Hauth & _ & _ & Hvoted & _ & Hlater).
  exists s'. split; [exact Hrun|]. split; [exact Hauth|]. split; [exact Hvoted|].
  destruct (Hlater [(call_env 1 13, AuthorizeVoter 2)] (call_env 1 14) (ballot 0) [])
    as (msg & Hmsg & _).
  - intros ec Hin. apply list_elem_of_singleton in Hin as ->. cbn. discriminate.
  - reflexivity.
  - exists msg. exact Hmsg.
Defined.

(** ** Casting a vote *)

(** X8: in a reachable state, a ballot that passes the checks of the
    modifiers is rejected without any change when its proof is not
    accepted, and with "Invalid vote option" when its plaintext is not the
    index of an option. *)
Theorem invalid_ballot_rejected gw t s env e p :
  reachable gw t s ->
  startTime (votingInfo s) <= block_timestamp env <= endTime (votingInfo s) ->
  state (votingInfo s) = Active ->
  authorized s (msg_sender env) = true ->
  voted s (msg_sender env) = false ->
  (TFHE.proofAccepted e p = false ->
   transact (vote env e p) s = (Revert InvalidInputProof, s)) /\
  (TFHE.proofAccepted e p = true ->
   options_length s <= TFHE.plaintext e < 2 ^ 32 ->
   transact (vote env e p) s = (Revert (Require "Invalid vote option"), s)).
Proof.
  intros Hr [Hw1 Hw2] Hact Hauth Hvoted.
  apply reachable_invariant in Hr as [Ho _ _ Hst _].
  unfold transact, vote.
  rewrite onlyDuringVoting_eq, onlyAuthorizedVoter_eq, hasNotVoted_eq, nonReentrant_eq.
  rewrite (proj2 (Z.leb_le _ _) Hw1), (proj2 (Z.leb_le _ _) Hw2).
  rewrite (bool_decide_eq_true_2 _ Hact), Hauth, Hvoted, Hst.
  cbn [andb]. rewrite bool_decide_eq_false_2 by discriminate.
  unfold TFHE.asEuint32_input. split.
  - intros Hp. rewrite Hp. reflexivity.
  - intros Hp Hv. rewrite Hp. mstep. unfold checked_sub.
    change (options_length (set_status_ ENTERED s)) with (options_length s).
    rewrite (proj2 (Z.leb_le 1 (options_length s))) by lia.
    cbv beta iota. mstep.
    unfold TFHE.decrypt, TFHE.le, TFHE.asEuint32.
    rewrite !(uint32_small (options_length s - 1)),
            (uint32_small (TFHE.plaintext e)) by lia.
    rewrite (proj2 (Z.leb_gt _ _)) by lia. reflexivity.
Qed.

Lemma invalid_ballot_rejected_witness :
  transact (vote (call_env 1 11) (ballot 3) []) poll_open
  = (Revert (Require "Invalid vote option"), poll_open).
Proof.
  apply (invalid_ballot_rejected 900 10 poll_open (call_env 1 11) (ballot 3) []
           poll_open_reachable).
  - vm_compute. split; discriminate.
  - reflexivity.
  - vm_compute. reflexivity.
  - vm_compute. reflexivity.
  - reflexivity.
  - vm_compute. split; [discriminate | reflexivity].
Defined.

(** ** The views of the state *)

Lemma vote_gate_open env e p s :
  startTime (votingInfo s) <= block_timestamp env <= endTime (votingInfo s) ->
  state (votingInfo s) = Active ->
  vote env e p s <> Revert (Require "Voting is not active").
Proof.
  intros [H1 H2] Hact. unfold vote.
  rewrite onlyDuringVoting_eq, onlyAuthorizedVoter_eq, hasNotVoted_eq, nonReentrant_eq.
  rewrite (proj2 (Z.leb_le _ _) H1), (proj2 (Z.leb_le _ _) H2).
  rewrite (bool_decide_eq_true_2 _ Hact). cbn [andb].
  unfold TFHE.asEuint32_input, checked_sub, checked_add, TFHE.decrypt, TFHE.le.
  msimpl.
  repeat (first [case_if
                | rewrite (vote_loop_eq (uint32 (TFHE.plaintext e))) by reflexivity];
          msimpl); discriminate.
Qed.

(** X9: [isVotingActive] answers whether [vote] passes its time-and-state
    check: it returns false exactly when every [vote] at that block time
    reverts with "Voting is not active". *)
Theorem isVotingActive_is_the_vote_gate env s e p :
  exists b,
    isVotingActive env s = Ok (b, s) /\
    (b = false <-> vote env e p s = Revert (Require "Voting is not active")).
Proof.
  eexists. split; [reflexivity|]. split.
  - intros Hb. apply vote_not_active. intros [[H1 H2] Hact].
    rewrite (bool_decide_eq_true_2 _ Hact) in Hb.
    rewrite (proj2 (Z.leb_le _ _) H1), (proj2 (Z.leb_le _ _) H2) in Hb.
    discriminate.
  - intros Hv.
    destruct (bool_decide (state (votingInfo s) = Active)) eqn:Ha; [|reflexivity].
    destruct (startTime (votingInfo s) <=? block_timestamp env) eqn:H1; [|reflexivity].
    destruct (block_timestamp env <=? endTime (votingInfo s)) eqn:H2; [|reflexivity].
    exfalso. revert Hv. apply vote_gate_open.
    + split; by apply Z.leb_le.
    + by apply bool_decide_eq_true in Ha.
Qed.

(** X10: [getCurrentState] runs ahead of the stored state: for a voting
    whose stored state is NotStarted it reports Active from the start time
    on, also after the end time, although [isVotingActive] is false and
    every [vote] reverts until [startVoting] has been called. *)
Theorem getCurrentState_reports_Active_before_start env s :
  state (votingInfo s) = NotStarted ->
  startTime (votingInfo s) <= block_timestamp env ->
  getCurrentState env s = Ok (Active, s) /\
  isVotingActive env s = Ok (false, s) /\
  forall e p, vote env e p s = Revert (Require "Voting is not active").
Proof.
  intros Hs Ht. repeat split.
  - unfold getCurrentState, gets. rewrite Hs. cbn.
    by rewrite (proj2 (Z.leb_le _ _) Ht).
  - unfold isVotingActive, gets. rewrite Hs. reflexivity.
  - intros e p. apply vote_not_active. intros [_ Hact]. congruence.
Qed.

Lemma getCurrentState_reports_Active_before_start_witness :
  getCurrentState (call_env 2 200) poll = Ok (Active, poll) /\
  isVotingActive (call_env 2 200) poll = Ok (false, poll) /\
  forall e p, vote (call_env 2 200) e p poll = Revert (Require "Voting is not active").
Proof.
  apply (getCurrentState_reports_Active_before_start (call_env 2 200) poll).
  - reflexivity.
  - vm_compute. discriminate.
Defined.

(** ** Results *)

Lemma requests_loop env body n (a : nat) s :
  (forall i s, body i s =
     Ok (tt, set_events
               (events s ++
                [Event.GatewayRequestDecryption [count s i] "callbackResults" 0
                   (block_timestamp env + 100) false]) s)) ->
  for_loop n (Z.of_nat a) body s
  = Ok (tt, set_events
              (events s ++
               map (fun i => Event.GatewayRequestDecryption [count s (Z.of_nat i)]
                               "callbackResults" 0 (block_timestamp env + 100) false)
                   (seq a n)) s).
Proof.
  intros Hb. revert a s. induction n as [|n IH]; intros a s.
  - cbn [for_loop seq map]. rewrite app_nil_r. destruct s; reflexivity.
  - cbn [for_loop seq map]. unfold bind. rewrite Hb.
    replace (Z.of_nat a + 1) with (Z.of_nat (S a)) by lia.
    rewrite IH. cbn [events set_events]. rewrite <- app_assoc. reflexivity.
Qed.

(** With the checks passed, the model of [requestResults] gives
    [requested_post]. *)
Lemma requestResults_passed env s :
  owner_ s = msg_sender env ->
  endTime (votingInfo s) < block_timestamp env \/ state (votingInfo s) = Ended ->
  resultsRequested (votingInfo s) = false ->
  block_timestamp env + 100 <= MAX_UINT256 ->
  requestResults env s = Ok (tt, requested_post env s).
Proof.
  intros Ho Hafter Hreq Ht. unfold requestResults.
  rewrite onlyOwner_eq, onlyAfterVoting_eq, (bool_decide_eq_true_2 _ Ho).
  assert (Hgate : (endTime (votingInfo s) <? block_timestamp env)
                  || bool_decide (state (votingInfo s) = Ended) = true).
  { apply orb_true_iff. destruct Hafter as [H|H];
      [left; by apply Z.ltb_lt | right; by apply bool_decide_eq_true_2]. }
  rewrite Hgate. mstep. rewrite Hreq. cbn [negb]. unfold bind at 1.
  match goal with
  | |- context [for_loop ?n 0 ?b ?s0] =>
      change (for_loop n 0 b s0) with (for_loop n (Z.of_nat 0) b s0)
  end.
  rewrite (requests_loop env).
  - unfold emit, modify. msimpl. unfold requested_post, requests.
    rewrite <- app_assoc. reflexivity.
  - intros i s0. mstep. unfold checked_add.
    rewrite (proj2 (Z.leb_le _ _) Ht). reflexivity.
Qed.

(** X11: what a successful [requestResults] has done: it has set
    [resultsRequested] and state Ended, and has asked the gateway for one
    decryption for each option, in the order of the options, each request
    holding the single ciphertext of that option's count, the callback
    [callbackResults] and the deadline block.timestamp + 100, and has then
    emitted ResultsRequested; nothing else has changed. *)
Theorem requestResults_requests_each_count gw t env s s' :
  reachable gw t s ->
  requestResults env s = Ok (tt, s') ->
  s' = requested_post env s.
Proof.
  intros Hr H.
  pose proof (reachable_invariant _ _ _ Hr) as [Hopt _ _ _ _].
  pose proof (requestResults_Ok _ _ _ H) as (Ho & Hafter & Hreq & _).
  destruct (Z.leb_spec (block_timestamp env + 100) MAX_UINT256) as [Ht|Ht].
  - rewrite (requestResults_passed env s Ho Hafter Hreq Ht) in H. congruence.
  - exfalso. revert H. unfold requestResults.
    rewrite onlyOwner_eq, onlyAfterVoting_eq, (bool_decide_eq_true_2 _ Ho).
    assert (Hgate : (endTime (votingInfo s) <? block_timestamp env)
                    || bool_decide (state (votingInfo s) = Ended) = true).
    { apply orb_true_iff. destruct Hafter as [H|H];
        [left; by apply Z.ltb_lt | right; by apply bool_decide_eq_true_2]. }
    rewrite Hgate. mstep. rewrite Hreq. cbn [negb]. unfold bind at 1.
    msimpl. unfold options_length, len in Hopt.
    destruct (length (options (votingInfo s))) as [|n]; [lia|].
    cbn [for_loop]. unfold bind at 1. unfold checked_add.
    rewrite (proj2 (Z.leb_gt _ _) Ht). discriminate.
Qed.

Lemma requestResults_requests_each_count_witness :
  poll_requested = requested_post (call_env 1 101) poll_voted.
Proof.
  apply (requestResults_requests_each_count 900 11 (call_env 1 101) poll_voted
           poll_requested poll_voted_reachable).
  vm_compute. reflexivity.
Defined.

Lemma callback_step env r d s :
  msg_sender env = gatewayContractAddress env ->
  step s (env, CallbackResults r d) = callback_post d s.
Proof.
  intros Hg. unfold step, transact. cbn [fst snd execute].
  by rewrite callbackResults_eq, (bool_decide_eq_true_2 _ Hg).
Qed.

Lemma single_callbacks_results cs s c :
  Forall (fun c => msg_sender (fst (fst c)) = gatewayContractAddress (fst (fst c))) cs ->
  1 <= options_length s ->
  decryptedResults s = ∅ \/ (exists y, decryptedResults s = {[0 := y]}) ->
  last cs = Some c ->
  decryptedResults (run (single_callbacks cs) s) = {[0 := uint32 (snd c)]} /\
  resultsDecrypted (run (single_callbacks cs) s) = true /\
  options (votingInfo (run (single_callbacks cs) s)) = options (votingInfo s).
Proof.
  intros Hg. revert s. induction Hg as [|c0 rest Hg0 Hg IH]; intros s Hn Hres Hlast.
  - discriminate.
  - cbn [single_callbacks map run fold_left].
    rewrite (callback_step _ _ _ _ Hg0).
    assert (Hone : decryptedResults (callback_post [snd c0] s)
                   = {[0 := uint32 (snd c0)]}).
    { cbn [callback_post decryptedResults stored].
      rewrite (proj2 (Z.ltb_lt 0 (options_length s))) by lia.
      destruct Hres as [->|[y ->]];
        [apply insert_empty | apply insert_singleton_eq]. }
    destruct rest as [|c1 rest].
    + injection Hlast as <-. cbn [map fold_left]. by rewrite Hone.
    + destruct (IH (callback_post [snd c0] s)) as (H1 & H2 & H3);
        [exact Hn | right; eauto | exact Hlast |].
      fold (single_callbacks (c1 :: rest)).
      fold (run (single_callbacks (c1 :: rest)) (callback_post [snd c0] s)).
      by rewrite H1, H2, H3.
Qed.

Lemma results_after_first (s : State) (y : Z) (a n : nat) :
  decryptedResults s = {[0 := y]} -> (1 <= a)%nat ->
  map (fun i => result s (Z.of_nat i)) (seq a n) = replicate n 0.
Proof.
  intros Hd Ha. revert a Ha. induction n as [|n IH]; intros a Ha; [reflexivity|].
  cbn [seq map replicate]. rewrite IH by lia. f_equal.
  unfold result, mapping_get. rewrite Hd, lookup_singleton_ne by lia. reflexivity.
Qed.

Lemma poll_reachable : reachable 900 5 poll.
Proof.
  apply (reachable_deploy 900 (call_env 1 5) "Poll" "Demo" ["A"; "B"; "C"] 10 100);
    [reflexivity|].
  apply deploy_Ok_iff. split; [|reflexivity]. cbn. unfold len. cbn. lia.
Qed.

(** X12: a call of [callbackResults] with a single value writes result 0,
    whatever its request id: in a reachable state in which no callback has
    arrived yet, after any such calls of the gateway, one or more,
    [getResults] returns the value of the last of them, truncated to
    uint32, for option 0 and 0 for every other option. *)
Theorem single_value_callbacks_fill_option_0 gw t s cs c :
  reachable gw t s ->
  resultsDecrypted s = false ->
  Forall (fun c => msg_sender (fst (fst c)) = gatewayContractAddress (fst (fst c))) cs ->
  last cs = Some c ->
  transact getResults (run (single_callbacks cs) s)
  = (Ok (uint32 (snd c) :: replicate (length (options (votingInfo s)) - 1) 0),
     run (single_callbacks cs) s).
Proof.
  intros Hr Hnone Hg Hlast.
  pose proof (reachable_invariant _ _ _ Hr) as [Ho _ _ _ _].
  apply reachable_ledger in Hr as [_ _ _ Hres _].
  destruct (single_callbacks_results cs s c Hg) as (Hd & Hdec & Hopt);
    [lia | left; by apply Hres | exact Hlast |].
  unfold transact, getResults. mstep. rewrite Hdec. mstep. unfold gets.
  rewrite Hopt. unfold options_length, len in Ho.
  destruct (length (options (votingInfo s))) as [|n] eqn:Hlen; [lia|].
  cbn [seq map]. rewrite (results_after_first _ _ _ _ Hd) by lia.
  unfold result at 1, mapping_get. rewrite Hd, lookup_singleton_eq.
  cbn [default]. replace (S n - 1)%nat with n by lia. reflexivity.
Qed.

Lemma single_value_callbacks_fill_option_0_witness :
  transact getResults
    (run (single_callbacks [(call_env 900 102, 0, 4); (call_env 900 103, 1, 6)]) poll)
  = (Ok [6; 0; 0],
     run (single_callbacks [(call_env 900 102, 0, 4); (call_env 900 103, 1, 6)]) poll).
Proof.
  apply (single_value_callbacks_fill_option_0 900 5 poll
           [(call_env 900 102, 0, 4); (call_env 900 103, 1, 6)]
           (call_env 900 103, 1, 6) poll_reachable).
  - reflexivity.
  - repeat constructor.
  - reflexivity.
Defined.

Lemma poll_revealed_reachable : reachable 900 50 poll_revealed.
Proof.
  apply (reachable_step 900 (call_env 900 50) _ 5);
    [exact poll_reachable | reflexivity | cbn; lia].
Qed.

(** X13: in every reachable state whose stored state is ResultsRevealed,
    [getResults] succeeds and returns one value for each option. *)
Theorem revealed_results_are_available gw t s :
  reachable gw t s ->
  state (votingInfo s) = ResultsRevealed ->
  exists results,
    transact getResults s = (Ok results, s) /\
    len results = options_length s.
Proof.
  intros Hr Hs. apply reachable_ledger in Hr as [_ _ _ _ Hrev].
  unfold transact, getResults. mstep. rewrite (Hrev Hs). mstep. unfold gets.
  eexists. split; [reflexivity|].
  unfold len, options_length, len. by rewrite length_map, length_seq.
Qed.

Lemma revealed_results_are_available_witness :
  exists results,
    transact getResults poll_revealed = (Ok results, poll_revealed) /\
    len results = options_length poll_revealed.
Proof.
  apply (revealed_results_are_available 900 50 poll_revealed poll_revealed_reachable).
  reflexivity.
Defined.
End PrivateVotingProperties.

Module VotingFactoryProperties.
Import VotingFactory OZ VotingFactorySpec VotingFactoryFacts VotingFactoryMore.

(** ** Creating a voting *)

Lemma createVoting_Ok_iff env t d o st et s a s' :
  createVoting env t d o st et s = Ok (a, s') <->
  createVoting_checks env t o st et s /\
  a = createdAddress env /\
  s' = createVoting_post env t d o st et s.
Proof.
  unfold createVoting_checks. unfold createVoting. rewrite factory_nonReentrant_eq.
  case_bool_decide as Hst; [split; [discriminate | intros [(? & _) _]; done]|].
  fsimpl.
  destruct (0 <? Z.of_nat (String.length t)) eqn:Ht;
    [apply Z.ltb_lt in Ht | apply Z.ltb_ge in Ht;
       split; [discriminate | intros [(_ & ? & _) _]; lia]].
  destruct (2 <=? len o) eqn:H2;
    [apply Z.leb_le in H2 | apply Z.leb_gt in H2;
       split; [discriminate | intros [(_ & _ & ? & _) _]; lia]].
  destruct (st <? et) eqn:Hse;
    [apply Z.ltb_lt in Hse | apply Z.ltb_ge in Hse;
       split; [discriminate | intros [(_ & _ & _ & ? & _) _]; lia]].
  destruct (PrivateVoting.deploy _ _ _ _ _ _) as [c|e] eqn:Hd.
  - apply PrivateVotingFacts.deploy_Ok_iff in Hd as [(Hthis & Ho & _ & Hts) ->].
    cbn [inner msg_sender block_timestamp] in Hthis, Hts.
    destruct (decide (msg_sender env = 0)) as [H0|H0].
    + unfold external, transferOwnership.
      rewrite PrivateVotingFacts.onlyOwner_eq.
      cbn [PrivateVoting.owner_ PrivateVotingSpec.constructed].
      rewrite bool_decide_eq_true_2 by reflexivity.
      fsimpl. rewrite (bool_decide_eq_true_2 _ H0).
      split; [discriminate | intros [(_ & _ & _ & _ & _ & _ & ?) _]; done].
    + rewrite transferOwnership_constructed by assumption. fsimpl.
      unfold checked_sub, len. rewrite length_app. cbn [length].
      rewrite (proj2 (Z.leb_le _ _)) by lia. fsimpl.
      replace (Z.of_nat (length (votingContracts s) + 1) - 1)
        with (Z.of_nat (length (votingContracts s))) by lia.
      split.
      * intros [= <- <-]. repeat split; try assumption; try (unfold len in *; lia).
      * intros (_ & -> & ->). reflexivity.
  - split; [discriminate|].
    intros [(_ & _ & Ho & _ & Hts & Hthis & _) _]. exfalso.
    assert (Hok : PrivateVoting.deploy (inner env) t d o st et
                  = Ok (PrivateVotingSpec.constructed (inner env) t d o st et)).
    { apply PrivateVotingFacts.deploy_Ok_iff. split; [|reflexivity]. cbn. auto. }
    congruence.
Qed.

(** X14: [createVoting] succeeds exactly when the title is not empty, there
    are between 2 and 10 options, start is before end, end is in the future
    (and the factory is not being re-entered, and neither the factory nor
    the caller is the zero address); it then returns the address of the new
    voting, appends one active record for it with the caller as creator,
    adds that record's index to the caller's list, marks the address as
    valid, and changes nothing else. *)
Theorem createVoting_registers env t d o st et s a s' :
  createVoting env t d o st et s = Ok (a, s') <->
  createVoting_checks env t o st et s /\
  a = createdAddress env /\
  s' = createVoting_post env t d o st et s.
Proof. apply createVoting_Ok_iff. Qed.

Lemma createVoting_registers_witness :
  createVoting_checks creator_env "Poll" ["A"; "B"; "C"] 10 100 factory /\
  701 = createdAddress creator_env /\
  factory_after = createVoting_post creator_env "Poll" "Demo" ["A"; "B"; "C"] 10 100 factory.
Proof.
  apply (proj1 (createVoting_registers creator_env "Poll" "Demo" ["A"; "B"; "C"] 10 100
                  factory 701 factory_after)).
  vm_compute. reflexivity.
Defined.

(** ** The registry *)

Lemma find_Ok i l a k :
  findVotingIndex_loop i l a = Ok k ->
  exists n v, k = i + Z.of_nat n /\ l !! n = Some v /\ contractAddress v = a.
Proof.
  revert i. induction l as [|x l IH]; intros i; cbn [findVotingIndex_loop];
    [discriminate|].
  case_bool_decide as Hx.
  - intros [= <-]. exists 0%nat, x. repeat split; [lia | assumption].
  - intros H. destruct (IH _ H) as (n & v & -> & Hl & Hv).
    exists (S n), v. repeat split; [lia | assumption | assumption].
Qed.

Lemma find_registered i l a :
  (exists v, v ∈ l /\ contractAddress v = a) ->
  exists k, findVotingIndex_loop i l a = Ok k.
Proof.
  intros (v & Hin & Hv). revert i. induction l as [|x l IH]; intros i.
  - by apply elem_of_nil in Hin.
  - cbn [findVotingIndex_loop]. case_bool_decide as Hx; [eauto|].
    apply IH. apply elem_of_cons in Hin as [->|Hin]; [contradiction | exact Hin].
Qed.

Lemma find_addresses i l l' a :
  map contractAddress l = map contractAddress l' ->
  findVotingIndex_loop i l a = findVotingIndex_loop i l' a.
Proof.
  revert i l'. induction l as [|x l IH]; intros i [|x' l'] H; try discriminate;
    [reflexivity|].
  injection H as Hx Hl. cbn [findVotingIndex_loop]. rewrite Hx.
  case_bool_decide; [reflexivity | by apply IH].
Qed.

Lemma insert_same {B} (f : VotingContract -> B) (l : list VotingContract) k v v' :
  l !! k = Some v -> f v' = f v -> map f (<[k := v']> l) = map f l.
Proof.
  intros Hl Hf. change (map f) with (fmap (M := list) f).
  rewrite list_fmap_insert, Hf. apply list_insert_id. by rewrite list_lookup_fmap, Hl.
Qed.

(** What [deactivateVoting] and [emergencyUpdateVotingStatus] do once the
    index of the address is found. *)
Lemma deactivateVoting_found env a s k v :
  isValid s a = true ->
  findVotingIndex_loop 0 (votingContracts s) a = Ok (Z.of_nat k) ->
  votingContracts s !! k = Some v ->
  deactivateVoting env a s =
  if bool_decide (creator v = msg_sender env) || bool_decide (owner_ s = msg_sender env)
  then if isActive v
       then Ok (tt, set_events
                      (events s ++ [Event.VotingContractDeactivated a (block_timestamp env)])
                      (set_votingContracts
                         (<[k := set_isActive false v]> (votingContracts s)) s))
       else Revert (Require "Voting already deactivated")
  else Revert (Require "Not authorized to deactivate").
Proof.
  intros Hval Hfind Hl. unfold deactivateVoting, findVotingIndex. mstep.
  rewrite Hval, Hfind. cbv beta iota. mstep.
  assert (Hk : (k < length (votingContracts s))%nat) by (by eapply lookup_lt_Some).
  unfold len. rewrite (proj2 (Z.ltb_lt _ _)) by lia.
  unfold index. rewrite Nat2Z.id, Hl. cbv beta iota. mstep.
  cbn [_owner State_Ownable].
  destruct (_ || _); [|reflexivity]. destruct (isActive v); reflexivity.
Qed.

Lemma emergencyUpdate_found env a b s k v :
  owner_ s = msg_sender env ->
  isValid s a = true ->
  findVotingIndex_loop 0 (votingContracts s) a = Ok (Z.of_nat k) ->
  votingContracts s !! k = Some v ->
  emergencyUpdateVotingStatus env a b s =
  Ok (tt, set_events
            (events s ++ if negb b
                         then [Event.VotingContractDeactivated a (block_timestamp env)]
                         else [])
            (set_votingContracts (<[k := set_isActive b v]> (votingContracts s)) s)).
Proof.
  intros Ho Hval Hfind Hl. unfold emergencyUpdateVotingStatus, findVotingIndex, onlyOwner,
    _checkOwner.
  mstep. cbn [_owner State_Ownable]. rewrite (bool_decide_eq_true_2 _ Ho). mstep.
  rewrite Hval, Hfind. cbv beta iota. mstep.
  unfold index. rewrite Nat2Z.id, Hl. cbv beta iota. mstep.
  destruct b; cbn [negb].
  - unfold ret. rewrite app_nil_r. by destruct s.
  - unfold emit, modify. reflexivity.
Qed.

Lemma view_unchanged {A} env (c : Call A) s :
  match c with
  | CreateVoting _ _ _ _ _ | DeactivateVoting _ | EmergencyUpdateVotingStatus _ _
  | TransferOwnership _ | RenounceOwnership => False
  | _ => True
  end -> after_call s env c = s.
Proof.
  intros Hc. unfold after_call. symmetry. apply (stable_transact eq).
  destruct c; try done; cbn [execute];
    unfold getAllVotings, getActiveVotings, getVotingsByCreator, getVotingByAddress,
      getTotalVotingsCount, getActiveVotingsCount, getCreatorVotingsCount,
      isValidVoting, getPaginatedVotings, findVotingIndex; stable_auto.
Qed.

(** Every call leaves the state as it was, or registers a voting, or sets
    the active flag of one record, or changes the owner. *)
Lemma after_call_shape {A} env (c : Call A) s :
  after_call s env c = s \/
  (exists t d o st et,
     createVoting_checks env t o st et s /\
     after_call s env c = createVoting_post env t d o st et s) \/
  (exists k v b l,
     votingContracts s !! k = Some v /\
     after_call s env c
     = set_events l (set_votingContracts
                       (<[k := set_isActive b v]> (votingContracts s)) s)) \/
  (exists o l, after_call s env c = set_events l (set_owner_ o s)).
Proof.
  destruct c; try (left; by apply view_unchanged).
  - unfold after_call, transact. cbn [execute].
    destruct (createVoting _ _ _ _ _ _ _) as [[a s']|e] eqn:H; [|by left].
    apply createVoting_Ok_iff in H as (Hc & _ & ->). right; left. eauto 10.
  - unfold after_call, transact. cbn [execute].
    destruct (isValid s _votingAddress) eqn:Hval.
    + destruct (findVotingIndex_loop 0 (votingContracts s) _votingAddress) as [i|e] eqn:Hf.
      * destruct (find_Ok _ _ _ _ Hf) as (k & v & -> & Hl & _). rewrite Z.add_0_l in Hf.
        rewrite (deactivateVoting_found env _ s k v Hval Hf Hl).
        destruct (_ || _); [|by left]. destruct (isActive v); [|by left].
        right; right; left. eauto 10.
      * left. unfold deactivateVoting, findVotingIndex. mstep. by rewrite Hval, Hf.
    + left. unfold deactivateVoting. mstep. by rewrite Hval.
  - unfold after_call, transact. cbn [execute].
    destruct (decide (owner_ s = msg_sender env)) as [Ho|Ho].
    + destruct (isValid s _votingAddress) eqn:Hval.
      * destruct (findVotingIndex_loop 0 (votingContracts s) _votingAddress) as [i|e] eqn:Hf.
        -- destruct (find_Ok _ _ _ _ Hf) as (k & v & -> & Hl & _). rewrite Z.add_0_l in Hf.
           rewrite (emergencyUpdate_found env _ _isActive s k v Ho Hval Hf Hl).
           right; right; left. eauto 10.
        -- left. unfold emergencyUpdateVotingStatus, findVotingIndex, onlyOwner, _checkOwner.
           mstep. cbn [_owner State_Ownable]. rewrite (bool_decide_eq_true_2 _ Ho).
           mstep. by rewrite Hval, Hf.
      * left. unfold emergencyUpdateVotingStatus, onlyOwner, _checkOwner.
        mstep. cbn [_owner State_Ownable]. rewrite (bool_decide_eq_true_2 _ Ho).
        mstep. by rewrite Hval.
    + left. unfold emergencyUpdateVotingStatus, onlyOwner, _checkOwner.
      mstep. cbn [_owner State_Ownable]. by rewrite (bool_decide_eq_false_2 _ Ho).
  - unfold after_call, transact. cbn [execute].
    unfold transferOwnership, onlyOwner, _checkOwner, _transferOwnership.
    mstep. cbn [_owner State_Ownable]. case_bool_decide; [|by left].
    mstep. case_bool_decide; [by left|]. mstep.
    right; right; right. eauto.
  - unfold after_call, transact. cbn [execute].
    unfold renounceOwnership, onlyOwner, _checkOwner, _transferOwnership.
    mstep. cbn [_owner State_Ownable]. case_bool_decide; [|by left].
    mstep. right; right; right. eauto.
Qed.

Lemma indices_of_app c i xs ys :
  indices_of c i (xs ++ ys)
  = indices_of c i xs ++ indices_of c (i + len xs) ys.
Proof.
  revert i. induction xs as [|x xs IH]; intros i; cbn [app indices_of].
  - unfold len. cbn. by rewrite Z.add_0_r.
  - rewrite IH, <- app_assoc. do 2 f_equal. unfold len. cbn [length]. f_equal. lia.
Qed.

Lemma registered_addresses (l : list VotingContract) a :
  (exists v, v ∈ l /\ contractAddress v = a) <-> a ∈ map contractAddress l.
Proof.
  change (map contractAddress l) with (contractAddress <$> l).
  rewrite list_elem_of_fmap. split; intros (v & H1 & H2); exists v; auto.
Qed.

Lemma after_call_registry {A} env (c : Call A) s : registry s -> registry (after_call s env c).
Proof.
  intros [Hval Hcre Hst].
  destruct (after_call_shape env c s)
    as [-> | [(t & d & o & st & et & _ & ->) | [(k & v & b & l & Hl & ->) | (o & l & ->)]]].
  - by split.
  - split.
    + intros a. unfold isValid. cbn [createVoting_post isValidVotingContract votingContracts].
      rewrite PrivateVotingFacts.mapping_get_insert. fold (isValid s a).
      case_bool_decide as Ha.
      * split; [|done]. intros _. exists (new_record env t). split; [|by subst].
        apply elem_of_app. right. apply list_elem_of_here.
      * rewrite Hval. split; intros (v & Hin & Hv); exists v; (split; [|done]).
        -- apply elem_of_app. by left.
        -- apply elem_of_app in Hin as [Hin|Hin]; [done|].
           apply list_elem_of_singleton in Hin. subst v. cbn in Hv. congruence.
    + intros c0. unfold votingsOf.
      cbn [createVoting_post creatorToVotings votingContracts].
      rewrite PrivateVotingFacts.mapping_get_insert. fold (votingsOf s (msg_sender env)).
      fold (votingsOf s c0). rewrite map_app, indices_of_app, <- Hcre.
      unfold len. rewrite length_map. cbn [map indices_of new_record creator].
      rewrite Z.add_0_l, app_nil_r.
      case_bool_decide as Hc; [by subst | by rewrite app_nil_r].
    + reflexivity.
  - assert (Ha : map contractAddress (<[k := set_isActive b v]> (votingContracts s))
                 = map contractAddress (votingContracts s)) by (by eapply insert_same).
    assert (Hc : map creator (<[k := set_isActive b v]> (votingContracts s))
                 = map creator (votingContracts s)) by (by eapply insert_same).
    split.
    + intros a. cbn [set_events set_votingContracts votingContracts].
      rewrite registered_addresses, Ha, <- registered_addresses. apply Hval.
    + intros c0. cbn [set_events set_votingContracts votingContracts]. rewrite Hc.
      apply Hcre.
    + exact Hst.
  - by split.
Qed.

Lemma deployed_registry s : deployed s -> registry s.
Proof.
  induction 1 as [env s Hd | A env c s _ IH]; [|by apply after_call_registry].
  unfold deploy, constructor, Ownable_constructor, ReentrancyGuard_constructor,
    _transferOwnership in Hd.
  revert Hd. mstep. case_bool_decide; [discriminate|]. mstep. intros [= <-].
  split.
  - intros a. split; [discriminate|]. intros (v & Hin & _). by apply elem_of_nil in Hin.
  - reflexivity.
  - reflexivity.
Qed.

Lemma factory_deployed : deployed factory.
Proof.
  apply (deployed_new
           {| msg_sender := 1; block_timestamp := 0; this := 0;
              gatewayContractAddress := 900; createdAddress := 700 |}).
  vm_compute. reflexivity.
Qed.

Lemma factory_after_call :
  factory_after
  = after_call factory creator_env (CreateVoting "Poll" "Demo" ["A"; "B"; "C"] 10 100).
Proof. unfold factory_after, after_call. cbn [execute]. reflexivity. Qed.

Lemma factory_after_deployed : deployed factory_after.
Proof. rewrite factory_after_call. apply deployed_call, factory_deployed. Qed.

Lemma factory_two_deployed : deployed factory_two.
Proof. unfold factory_two. apply deployed_call, factory_after_deployed. Qed.

Lemma getVotingByAddress_found a s k v :
  isValid s a = true ->
  findVotingIndex_loop 0 (votingContracts s) a = Ok (Z.of_nat k) ->
  votingContracts s !! k = Some v ->
  getVotingByAddress a s = Ok (v, s).
Proof.
  intros Hval Hfind Hl. unfold getVotingByAddress, findVotingIndex. mstep.
  rewrite Hval, Hfind. cbv beta iota. mstep.
  assert (Hk : (k < length (votingContracts s))%nat) by (by eapply lookup_lt_Some).
  unfold len. rewrite (proj2 (Z.ltb_lt _ _)) by lia.
  unfold index, gets, lift, bind. by rewrite Nat2Z.id, Hl.
Qed.

Lemma getVotingByAddress_Ok a s v s' :
  getVotingByAddress a s = Ok (v, s') ->
  s' = s /\ isValid s a = true /\
  exists k, findVotingIndex_loop 0 (votingContracts s) a = Ok (Z.of_nat k) /\
            votingContracts s !! k = Some v /\ contractAddress v = a.
Proof.
  unfold getVotingByAddress, findVotingIndex. mstep.
  destruct (isValid s a) eqn:Hval; [|discriminate].
  destruct (findVotingIndex_loop 0 (votingContracts s) a) as [i|] eqn:Hf; [|discriminate].
  destruct (find_Ok _ _ _ _ Hf) as (k & v0 & -> & Hl & Ha). rewrite Z.add_0_l in *.
  cbv beta iota. mstep. destruct (_ <? _); [|discriminate].
  unfold index, gets, lift, bind. rewrite Nat2Z.id, Hl. intros [= <- <-].
  repeat split. eauto.
Qed.

(** X15: in every deployed state of the factory, an address is valid
    exactly when a voting with that address is registered; for a valid
    address [getVotingByAddress] succeeds and returns a registered record
    with that address (the "not found" reverts never happen), and for any
    other address it reverts with "Invalid voting contract". *)
Theorem valid_votings_are_found s a :
  deployed s ->
  (isValid s a = true <-> exists v, v ∈ votingContracts s /\ contractAddress v = a) /\
  (isValid s a = true ->
   exists v, transact (getVotingByAddress a) s = (Ok v, s) /\
             contractAddress v = a /\ v ∈ votingContracts s) /\
  (isValid s a = false ->
   transact (getVotingByAddress a) s = (Revert (Require "Invalid voting contract"), s)).
Proof.
  intros Hr. apply deployed_registry in Hr as [Hval _ _].
  split; [apply Hval|]. split.
  - intros Hv. destruct (find_registered 0 (votingContracts s) a) as [i Hf];
      [by apply Hval|].
    destruct (find_Ok _ _ _ _ Hf) as (k & v & -> & Hl & Ha). rewrite Z.add_0_l in Hf.
    exists v. unfold transact. rewrite (getVotingByAddress_found a s k v Hv Hf Hl).
    repeat split; [assumption|]. by eapply list_elem_of_lookup_2.
  - intros Hv. unfold transact, getVotingByAddress. mstep. by rewrite Hv.
Qed.

Lemma valid_votings_are_found_witness :
  exists v, transact (getVotingByAddress 702) factory_two = (Ok v, factory_two) /\
            contractAddress v = 702 /\ v ∈ votingContracts factory_two.
Proof.
  apply (proj1 (proj2 (valid_votings_are_found factory_two 702 factory_two_deployed))).
  vm_compute. reflexivity.
Defined.

Lemma getVotingsByCreator_loop_filter c pre rest :
  getVotingsByCreator_loop (pre ++ rest) (indices_of c (len pre) (map creator rest))
  = Ok (filter (fun v => creator v = c) rest).
Proof.
  revert pre. induction rest as [|x rest IH]; intros pre; [reflexivity|].
  cbn [map indices_of].
  assert (Hnext : getVotingsByCreator_loop (pre ++ x :: rest)
                    (indices_of c (len pre + 1) (map creator rest))
                  = Ok (filter (fun v => creator v = c) rest)).
  { specialize (IH (pre ++ [x])). rewrite <- app_assoc in IH. cbn [app] in IH.
    unfold len in *. rewrite length_app in IH. cbn [length] in IH.
    replace (Z.of_nat (length pre) + 1) with (Z.of_nat (length pre + 1)) by lia.
    exact IH. }
  case_bool_decide as Hx.
  - cbn [app getVotingsByCreator_loop]. rewrite Hnext. unfold index, len.
    rewrite Nat2Z.id, list_lookup_middle by reflexivity.
    by rewrite filter_cons_True.
  - cbn [app]. rewrite Hnext. by rewrite filter_cons_False.
Qed.

(** X16: in every deployed state of the factory, [getVotingsByCreator]
    succeeds for every address and returns exactly the registered votings
    whose creator is that address, in the order of their creation. *)
Theorem votings_by_creator_are_its_votings s c :
  deployed s ->
  transact (getVotingsByCreator c) s
  = (Ok (filter (fun v => creator v = c) (votingContracts s)), s).
Proof.
  intros Hr. apply deployed_registry in Hr as [_ Hcre _].
  unfold transact, getVotingsByCreator. mstep. rewrite Hcre.
  pose proof (getVotingsByCreator_loop_filter c [] (votingContracts s)) as H.
  cbn [app] in H. change (len []) with 0 in H. unfold lift. by rewrite H.
Qed.

Lemma votings_by_creator_are_its_votings_witness :
  transact (getVotingsByCreator 6) factory_two
  = (Ok (filter (fun v => creator v = 6) (votingContracts factory_two)), factory_two).
Proof.
  exact (votings_by_creator_are_its_votings factory_two 6 factory_two_deployed).
Defined.

(** X17: no call of the factory removes or rewrites a registered voting:
    after any call, the addresses, creators, titles and creation times of
    the votings registered before are the same, at the same positions;
    only the active flag of a record can change. *)
Theorem registered_votings_are_kept {A} env (c : Call A) s :
  map identity (votingContracts s)
  `prefix_of` map identity (votingContracts (after_call s env c)).
Proof.
  destruct (after_call_shape env c s)
    as [-> | [(t & d & o & st & et & _ & ->) | [(k & v & b & l & Hl & ->) | (o & l & ->)]]].
  - reflexivity.
  - cbn [createVoting_post votingContracts]. rewrite map_app. by apply prefix_app_r.
  - cbn [set_events set_votingContracts votingContracts].
    by rewrite (insert_same identity _ k v).
  - reflexivity.
Qed.

(** ** Deactivating a voting *)

Lemma filter_active_deactivate (l : list VotingContract) k v :
  l !! k = Some v -> isActive v = true ->
  len (filter (fun v => isActive v = true) (<[k := set_isActive false v]> l))
  = len (filter (fun v => isActive v = true) l) - 1.
Proof.
  intros Hl Hv.
  assert (Hk : (k < length l)%nat) by (by eapply lookup_lt_Some).
  rewrite insert_take_drop by assumption.
  rewrite <- (take_drop_middle l k v Hl) at 3.
  rewrite !filter_app, filter_cons_False, filter_cons_True by (cbn; congruence).
  unfold len. rewrite !length_app. cbn [length]. lia.
Qed.

(** X18: [deactivateVoting] for a voting that [getVotingByAddress] finds:
    called by its creator or by the owner of the factory while it is
    active, it succeeds, after which [getVotingByAddress] returns the same
    record with the active flag off, there is one active voting less and as
    many votings as before, and a second [deactivateVoting] reverts with
    "Voting already deactivated"; called by anyone else it reverts with
    "Not authorized to deactivate". *)
Theorem deactivateVoting_turns_one_off env a s v :
  transact (getVotingByAddress a) s = (Ok v, s) ->
  (creator v = msg_sender env \/ owner_ s = msg_sender env ->
   isActive v = true ->
   exists s',
     transact (deactivateVoting env a) s = (Ok tt, s') /\
     transact (getVotingByAddress a) s' = (Ok (set_isActive false v), s') /\
     active_count s' = active_count s - 1 /\
     len (votingContracts s') = len (votingContracts s) /\
     forall env', transact (deactivateVoting env' a) s'
                  = (Revert (Require "Voting already deactivated"), s') \/
                  transact (deactivateVoting env' a) s'
                  = (Revert (Require "Not authorized to deactivate"), s')) /\
  (creator v <> msg_sender env -> owner_ s <> msg_sender env ->
   transact (deactivateVoting env a) s
   = (Revert (Require "Not authorized to deactivate"), s)).
Proof.
  unfold transact at 1.
  destruct (getVotingByAddress a s) as [[v0 s0]|e] eqn:Hget; [|discriminate].
  intros [= -> _]. apply getVotingByAddress_Ok in Hget as (_ & Hval & k & Hf & Hl & Ha).
  split.
  - intros Hauth Hact.
    assert (Hb : bool_decide (creator v = msg_sender env)
                 || bool_decide (owner_ s = msg_sender env) = true).
    { apply orb_true_iff.
      destruct Hauth; [left | right]; by apply bool_decide_eq_true_2. }
    eexists. unfold transact at 1.
    rewrite (deactivateVoting_found env a s k v Hval Hf Hl), Hb, Hact.
    split; [reflexivity|].
    match goal with |- transact _ ?s1 = _ /\ _ => set (s' := s1) end.
    assert (Hval' : isValid s' a = true) by exact Hval.
    assert (Hf' : findVotingIndex_loop 0 (votingContracts s') a = Ok (Z.of_nat k)).
    { rewrite <- Hf. apply find_addresses. cbn [s' set_events set_votingContracts
        votingContracts]. by eapply insert_same. }
    assert (Hl' : votingContracts s' !! k = Some (set_isActive false v)).
    { cbn [s' set_events set_votingContracts votingContracts].
      apply list_lookup_insert_eq. by eapply lookup_lt_Some. }
    split; [|split; [|split]].
    + unfold transact. by rewrite (getVotingByAddress_found a s' k _ Hval' Hf' Hl').
    + unfold active_count. cbn [s' set_events set_votingContracts votingContracts].
      by apply filter_active_deactivate.
    + cbn [s' set_events set_votingContracts votingContracts]. unfold len.
      by rewrite length_insert.
    + intros env'. unfold transact.
      rewrite (deactivateVoting_found env' a s' k _ Hval' Hf' Hl').
      cbn [isActive set_isActive].
      match goal with |- context [if ?b then _ else _] => destruct b end;
        [left | right]; reflexivity.
  - intros Hc Ho. unfold transact.
    rewrite (deactivateVoting_found env a s k v Hval Hf Hl).
    by rewrite (bool_decide_eq_false_2 _ Hc), (bool_decide_eq_false_2 _ Ho).
Qed.

Lemma deactivateVoting_turns_one_off_witness :
  (exists s',
     transact (deactivateVoting (call_env_of 6) 702) factory_two = (Ok tt, s') /\
     active_count s' = active_count factory_two - 1) /\
  transact (deactivateVoting (call_env_of 7) 701) factory_two
  = (Revert (Require "Not authorized to deactivate"), factory_two).
Proof.
  split.
  - destruct (deactivateVoting_turns_one_off (call_env_of 6) 702 factory_two
                (new_record second_env "Second")) as [H _].
    + vm_compute. reflexivity.
    + destruct H as (s' & H1 & _ & H3 & _).
      * left. reflexivity.
      * reflexivity.
      * exists s'. split; assumption.
  - apply (proj2 (deactivateVoting_turns_one_off (call_env_of 7) 701 factory_two
                    (new_record creator_env "Poll") ltac:(vm_compute; reflexivity))).
    + vm_compute. discriminate.
    + vm_compute. discriminate.
Defined.

(** X19: deactivating a voting and then reactivating it through
    [emergencyUpdateVotingStatus] gives back the registry as it was: for an
    active voting that [getVotingByAddress] finds, deactivated by its
    creator or the owner and then set active again by the owner,
    [votingContracts] is the same list as before. *)
Theorem deactivate_then_reactivate_restores env env' a s v :
  transact (getVotingByAddress a) s = (Ok v, s) ->
  isActive v = true ->
  creator v = msg_sender env \/ owner_ s = msg_sender env ->
  owner_ s = msg_sender env' ->
  votingContracts
    (after_call (after_call s env (DeactivateVoting a)) env' (EmergencyUpdateVotingStatus a true))
  = votingContracts s.
Proof.
  unfold transact at 1.
  destruct (getVotingByAddress a s) as [[v0 s0]|e] eqn:Hget; [|discriminate].
  intros [= -> _] Hact Hauth Ho.
  apply getVotingByAddress_Ok in Hget as (_ & Hval & k & Hf & Hl & Ha).
  assert (Hb : bool_decide (creator v = msg_sender env)
               || bool_decide (owner_ s = msg_sender env) = true).
  { apply orb_true_iff. destruct Hauth; [left | right]; by apply bool_decide_eq_true_2. }
  unfold after_call at 2, transact. cbn [execute].
  rewrite (deactivateVoting_found env a s k v Hval Hf Hl), Hb, Hact. cbn [snd].
  match goal with |- votingContracts (after_call ?s1 _ _) = _ => set (s' := s1) end.
  assert (Hf' : findVotingIndex_loop 0 (votingContracts s') a = Ok (Z.of_nat k)).
  { rewrite <- Hf. apply find_addresses. cbn [s' set_events set_votingContracts
      votingContracts]. by eapply insert_same. }
  assert (Hl' : votingContracts s' !! k = Some (set_isActive false v)).
  { cbn [s' set_events set_votingContracts votingContracts].
    apply list_lookup_insert_eq. by eapply lookup_lt_Some. }
  unfold after_call, transact. cbn [execute].
  rewrite (emergencyUpdate_found env' a true s' k _ Ho Hval Hf' Hl'). cbn [snd].
  cbn [s' set_events set_votingContracts votingContracts].
  rewrite list_insert_insert_eq.
  replace (set_isActive true (set_isActive false v)) with v
    by (destruct v; cbn in *; by subst).
  by apply list_insert_id.
Qed.

Lemma deactivate_then_reactivate_restores_witness :
  votingContracts
    (after_call (after_call factory_two (call_env_of 6) (DeactivateVoting 702)) (call_env_of 1)
       (EmergencyUpdateVotingStatus 702 true))
  = votingContracts factory_two.
Proof.
  apply (deactivate_then_reactivate_restores (call_env_of 6) (call_env_of 1) 702
           factory_two (new_record second_env "Second")).
  - vm_compute. reflexivity.
  - reflexivity.
  - left. reflexivity.
  - reflexivity.
Defined.

(** ** The active votings *)

Lemma activeCount_loop_filter l c :
  0 <= c -> c + len l <= MAX_UINT256 ->
  activeCount_loop l c = Ok (c + len (filter (fun v => isActive v = true) l)).
Proof.
  revert c. induction l as [|v l IH]; intros c Hc Hmax.
  - cbn. f_equal. unfold len. cbn. lia.
  - unfold len in *. cbn [activeCount_loop length] in *.
    destruct (isActive v) eqn:Hv.
    + unfold checked_add. rewrite (proj2 (Z.leb_le _ _)) by lia.
      rewrite IH by lia. rewrite filter_cons_True by assumption.
      cbn [length]. f_equal. lia.
    + rewrite IH by lia. rewrite filter_cons_False by congruence. reflexivity.
Qed.

Lemma activeVotings_loop_filter l done fresh :
  len done + len l <= MAX_UINT256 ->
  length fresh = length (filter (fun v => isActive v = true) l) ->
  activeVotings_loop l (done ++ fresh) (len done)
  = Ok (done ++ filter (fun v => isActive v = true) l).
Proof.
  revert done fresh. induction l as [|v l IH]; intros done fresh Hmax Hlen.
  - cbn in *. destruct fresh; [reflexivity | discriminate].
  - cbn [activeVotings_loop] in *. unfold len in *. cbn [length] in *.
    destruct (isActive v) eqn:Hv.
    + rewrite filter_cons_True in * by assumption.
      destruct fresh as [|x fresh]; [discriminate|]. cbn [length] in Hlen.
      rewrite length_app. cbn [length].
      rewrite (proj2 (Z.ltb_lt _ _)) by lia.
      unfold checked_add. rewrite (proj2 (Z.leb_le _ _)) by lia.
      rewrite Nat2Z.id, insert_app_r_alt, Nat.sub_diag by lia.
      cbn [insert list_insert].
      replace (Z.of_nat (length done) + 1) with (Z.of_nat (length (done ++ [v])))
        by (rewrite length_app; cbn; lia).
      rewrite (cons_middle v done fresh), (cons_middle v done (filter _ l)).
      rewrite !(app_assoc done [v]).
      apply IH; [rewrite length_app; cbn; lia | lia].
    + rewrite filter_cons_False in * by congruence. by apply IH; [lia|].
Qed.

(** X20: the loops of [getActiveVotings] return exactly the votings whose
    active flag is set, in the order of the registry, and the loop of
    [getActiveVotingsCount] returns their number; neither reverts nor
    changes the state (the number of votings being within uint256). *)
Theorem getActiveVotings_returns_the_active s :
  len (votingContracts s) <= MAX_UINT256 ->
  transact getActiveVotings_loops s
  = (Ok (filter (fun v => isActive v = true) (votingContracts s)), s) /\
  transact getActiveVotings_loops s = transact getActiveVotings s /\
  transact getActiveVotingsCount_loop s = (Ok (active_count s), s) /\
  transact getActiveVotingsCount_loop s = transact getActiveVotingsCount s.
Proof.
  intros Hmax.
  assert (Hcount : activeCount_loop (votingContracts s) 0 = Ok (active_count s)).
  { rewrite activeCount_loop_filter by lia. reflexivity. }
  assert (Hfill : getActiveVotings_loops s
                  = Ok (filter (fun v => isActive v = true) (votingContracts s), s)).
  { unfold getActiveVotings_loops. fsimpl. rewrite Hcount.
    pose proof (activeVotings_loop_filter (votingContracts s) []
                  (replicate (Z.to_nat (active_count s)) empty_record)) as Hloop.
    cbn [app] in Hloop. change (len []) with 0 in Hloop. rewrite Hloop.
    - reflexivity.
    - lia.
    - rewrite length_replicate. unfold active_count, len. apply Nat2Z.id. }
  assert (Hc : getActiveVotingsCount_loop s = Ok (active_count s, s)).
  { unfold getActiveVotingsCount_loop. fsimpl. by rewrite Hcount. }
  unfold transact. rewrite Hfill, Hc. repeat split.
Qed.

Lemma getActiveVotings_returns_the_active_witness :
  transact getActiveVotingsCount_loop
    (after_call factory_two (call_env_of 6) (DeactivateVoting 702))
  = (Ok 1, after_call factory_two (call_env_of 6) (DeactivateVoting 702)).
Proof.
  apply (getActiveVotings_returns_the_active
           (after_call factory_two (call_env_of 6) (DeactivateVoting 702))).
  vm_compute. discriminate.
Defined.

(** ** Pages of the registry *)

Lemma page_clip (l : list VotingContract) o k :
  0 <= o < len l -> 0 < k ->
  take (Z.to_nat ((if len l <? o + k then len l else o + k) - o))
       (drop (Z.to_nat o) l) = page l o k.
Proof.
  unfold page, len. intros Ho Hk.
  destruct (_ <? _) eqn:Hlt; [|f_equal; lia].
  apply Z.ltb_lt in Hlt.
  rewrite !take_ge; [reflexivity | |]; rewrite length_drop; lia.
Qed.

Lemma getPaginatedVotings_eq o k s :
  0 <= o ->
  getPaginatedVotings o k s =
  if 0 <? k then
    if o <? len (votingContracts s) then
      if o + k <=? MAX_UINT256
      then Ok ((page (votingContracts s) o k, len (votingContracts s)), s)
      else Revert (Panic 17)
    else Revert (Require "Offset out of bounds")
  else Revert (Require "Limit must be greater than 0").
Proof.
  intros Ho. unfold getPaginatedVotings, checked_add, checked_sub. fsimpl.
  destruct (0 <? k) eqn:Hk; [|reflexivity].
  destruct (o <? len (votingContracts s)) eqn:Hn; [|reflexivity].
  destruct (o + k <=? MAX_UINT256) eqn:Hmax; [|reflexivity].
  apply Z.ltb_lt in Hk, Hn.
  rewrite (proj2 (Z.leb_le o _)) by (destruct (_ <? _); lia).
  by rewrite page_clip by lia.
Qed.

(** X21: [getPaginatedVotings] with a limit above 0, an offset below the
    number of votings and [_offset + _limit] within uint256 returns the
    page and the total: the page has [min _limit (total - _offset)]
    entries, its entry [i] is entry [_offset + i] of [votingContracts],
    and the state is unchanged. *)
Theorem getPaginatedVotings_returns_the_page s o k :
  0 < k -> 0 <= o < len (votingContracts s) -> o + k <= MAX_UINT256 ->
  exists p,
    transact (getPaginatedVotings o k) s = (Ok (p, len (votingContracts s)), s) /\
    len p = Z.min k (len (votingContracts s) - o) /\
    forall i, (i < length p)%nat ->
              p !! i = votingContracts s !! (Z.to_nat o + i)%nat.
Proof.
  intros Hk Ho Hmax. exists (page (votingContracts s) o k).
  unfold transact. rewrite getPaginatedVotings_eq by lia.
  rewrite (proj2 (Z.ltb_lt 0 k)), (proj2 (Z.ltb_lt o _)), (proj2 (Z.leb_le _ _))
    by lia.
  split; [reflexivity|]. unfold page, len in *. split.
  - rewrite length_take, length_drop. lia.
  - intros i Hi. rewrite length_take in Hi.
    rewrite lookup_take_lt by lia. by rewrite lookup_drop.
Qed.

Lemma getPaginatedVotings_returns_the_page_witness :
  exists p,
    transact (getPaginatedVotings 1 10) factory_two = (Ok (p, 2), factory_two) /\
    len p = 1 /\
    forall i, (i < length p)%nat -> p !! i = votingContracts factory_two !! (1 + i)%nat.
Proof.
  apply (getPaginatedVotings_returns_the_page factory_two 1 10).
  - lia.
  - vm_compute. split; [discriminate | reflexivity].
  - vm_compute. discriminate.
Defined.

(** X22: [getPaginatedVotings] never returns an empty page: with a limit of
    0 it reverts with "Limit must be greater than 0", and with an offset at
    or past the number of votings with "Offset out of bounds"; so on a
    factory without votings every call with a limit above 0 reverts with
    "Offset out of bounds", also the first page. *)
Theorem getPaginatedVotings_rejects_empty_pages s o k :
  0 <= o -> 0 <= k ->
  (k = 0 -> transact (getPaginatedVotings o k) s
            = (Revert (Require "Limit must be greater than 0"), s)) /\
  (0 < k -> len (votingContracts s) <= o ->
   transact (getPaginatedVotings o k) s
   = (Revert (Require "Offset out of bounds"), s)) /\
  (0 < k -> votingContracts s = [] ->
   transact (getPaginatedVotings o k) s
   = (Revert (Require "Offset out of bounds"), s)) /\
  forall p n s', transact (getPaginatedVotings o k) s = (Ok (p, n), s') -> p <> [].
Proof.
  intros Ho Hk. unfold transact. rewrite getPaginatedVotings_eq by lia.
  repeat split.
  - intros ->. reflexivity.
  - intros Hk' Hn.
    by rewrite (proj2 (Z.ltb_lt 0 k)), (proj2 (Z.ltb_ge o _)) by lia.
  - intros Hk' Hl. rewrite Hl.
    by rewrite (proj2 (Z.ltb_lt 0 k)), (proj2 (Z.ltb_ge o _)) by (unfold len; cbn [length]; lia).
  - intros p n s'.
    destruct (0 <? k) eqn:Hk'; [|discriminate].
    destruct (o <? _) eqn:Hn; [|discriminate].
    destruct (_ <=? _); [|discriminate].
    apply Z.ltb_lt in Hk', Hn. intros [= <- _ _] Hp.
    apply (f_equal length) in Hp. unfold page, len in *.
    rewrite length_take, length_drop in Hp. cbn [length] in Hp. lia.
Qed.

Lemma getPaginatedVotings_rejects_empty_pages_witness :
  transact (getPaginatedVotings 0 10) factory
  = (Revert (Require "Offset out of bounds"), factory).
Proof.
  apply (getPaginatedVotings_rejects_empty_pages factory 0 10); try lia.
  reflexivity.
Defined.

(** X23: consecutive pages fit together: when [getPaginatedVotings] returns
    a page for offset [o] and limit [k] and a page for offset [o + k] and
    limit [k'], then for offset [o] and limit [k + k'] it returns the first
    page followed by the second. *)
Theorem consecutive_pages_concatenate s o k k' p q n n' :
  0 <= o ->
  transact (getPaginatedVotings o k) s = (Ok (p, n), s) ->
  transact (getPaginatedVotings (o + k) k') s = (Ok (q, n'), s) ->
  transact (getPaginatedVotings o (k + k')) s = (Ok (p ++ q, n), s).
Proof.
  intros Ho. unfold transact.
  destruct (0 <? k) eqn:Hk.
  2:{ rewrite getPaginatedVotings_eq, Hk by lia. discriminate. }
  apply Z.ltb_lt in Hk.
  rewrite !getPaginatedVotings_eq by lia.
  rewrite (proj2 (Z.ltb_lt 0 k)) by lia.
  destruct (o <? _) eqn:Hn; [|discriminate].
  destruct (o + k <=? _) eqn:Hmax; [|discriminate].
  intros [= <- <-].
  destruct (0 <? k') eqn:Hk'; [|discriminate].
  destruct (o + k <? _) eqn:Hn'; [|discriminate].
  destruct (o + k + k' <=? _) eqn:Hmax'; [|discriminate].
  intros [= <- _].
  apply Z.ltb_lt in Hk', Hn, Hn'. apply Z.leb_le in Hmax'.
  rewrite (proj2 (Z.ltb_lt 0 (k + k'))), (proj2 (Z.leb_le (o + (k + k')) _)) by lia.
  do 3 f_equal. unfold page.
  rewrite (Z2Nat.inj_add o k), (Z2Nat.inj_add k k') by lia.
  rewrite <- drop_drop. apply symmetry, take_take_drop.
Qed.

Lemma consecutive_pages_concatenate_witness :
  transact (getPaginatedVotings 0 (1 + 1)) factory_two
  = (Ok ([new_record creator_env "Poll"] ++ [new_record second_env "Second"], 2),
     factory_two).
Proof.
  apply (consecutive_pages_concatenate factory_two 0 1 1 _ _ 2 2).
  - lia.
  - vm_compute. reflexivity.
  - vm_compute. reflexivity.
Defined.
End VotingFactoryProperties.

(** * The count of a vote *)

Import PrivateVoting OZ PrivateVotingSpec PrivateVotingFacts.
Import PrivateVotingMore PrivateVotingProperties.

(** In a reachable state no option has more votes than were cast. *)
Lemma count_at_most_totalVoters gw t s v :
  reachable gw t s ->
  totalVoters (votingInfo s) < 2 ^ 32 ->
  0 <= v < options_length s ->
  count s v <= totalVoters (votingInfo s).
Proof.
  intros Hr Hsmall Hv.
  pose proof (reachable_invariant _ _ _ Hr) as [_ _ Hc _ _].
  apply reachable_ledger in Hr as [Hsum _ _ _ _].
  rewrite <- (Hsum Hsmall). unfold tally_sum.
  pose proof (sumZ_bound (fun i : nat => count s (Z.of_nat i))
                (seq 0 (length (options (votingInfo s)))) (Z.to_nat v)) as Hb.
  cbn beta in Hb. rewrite Z2Nat.id in Hb by lia. apply Hb.
  - intros y _. apply Hc.
  - apply in_seq. unfold options_length, len in Hv. lia.
Qed.

(** C1: for every successful call to [vote] with a ballot whose plaintext
    [v] is a valid option (0 <= v <= options.length - 1), in a reachable
    state in which fewer than 2^32 - 1 votes have been cast (the counts are
    32-bit), the encrypted count of option [v] is incremented by exactly 1,
    the encrypted counts of all other options are unchanged, and
    [votingInfo.totalVoters] is incremented by exactly 1. *)
Theorem vote_counts_ballot gw t s env e p s' :
  reachable gw t s ->
  totalVoters (votingInfo s) < 2 ^ 32 - 1 ->
  vote env e p s = Ok (tt, s') ->
  0 <= TFHE.plaintext e <= options_length s - 1 ->
  count s' (TFHE.plaintext e) = count s (TFHE.plaintext e) + 1 /\
  (forall j, j <> TFHE.plaintext e -> count s' j = count s j) /\
  totalVoters (votingInfo s') = totalVoters (votingInfo s) + 1.
Proof.
  intros Hr Hsmall Hv Hrange.
  destruct (vote_tally _ _ _ _ _ _ _ Hr Hv Hrange) as (Hself & Hothers & Htotal).
  split; [|split; assumption].
  rewrite Hself. apply Z.mod_small.
  pose proof (reachable_invariant _ _ _ Hr) as [_ _ Hc _ _].
  specialize (Hc (TFHE.plaintext e)).
  assert (count s (TFHE.plaintext e) <= totalVoters (votingInfo s))
    by (apply (count_at_most_totalVoters gw t); [assumption | lia | lia]).
  lia.
Qed.

Lemma vote_counts_ballot_witness :
  count poll_voted 2 = count poll_open 2 + 1 /\
  (forall j, j <> 2 -> count poll_voted j = count poll_open j) /\
  totalVoters (votingInfo poll_voted) = totalVoters (votingInfo poll_open) + 1.
Proof.
  apply (vote_counts_ballot 900 10 poll_open (call_env 1 11) (ballot 2) [] poll_voted).
  - exact poll_open_reachable.
  - vm_compute. reflexivity.
  - vm_compute. reflexivity.
  - vm_compute. split; discriminate.
Defined.
